(** * asl-flashcards: the persistence layer of [flash_cards_model.py]

    A shallow embedding of the SQLite-backed flash-card model: the three
    tables, every SQL statement the module formats and executes, the methods
    of [FlashCardsModel] and the two module-level loaders, followed by the
    properties of the session/scoring layer and of the catalog loaders.

    What the embedding fixes about the world outside the module:
    - a database file is the content of its three tables ([words] keyed by
      its [INTEGER PRIMARY KEY], [sessions] and [scores] in rowid order);
      a file on which the tables were never created is absent from the
      [filesystem] map, and every statement on it raises [OperationalError];
    - the CSV source arrives parsed: [Number] and [Level] as the integers
      their numerals denote, [Word] as the text of the field;
    - SQLite holds an integer in 64 bits and reads the numeral of an integer
      beyond that range as a floating-point literal.  The tables keep their
      integers as [Z]; the statements are exact for integers in the 64-bit
      range, and the properties that depend on how a numeral is read carry
      that range as a hypothesis ([int64], [int64_scores], [storable]);
    - [datetime.now()] and the draws of [RANDOM()] are arguments;
    - a Python [float] is an IEEE-754 binary64 value ([spec_float] with
      precision 53 and maximal exponent 1024). *)

From Stdlib Require Import ZArith String Ascii.
From Stdlib Require Import DecimalString.
From Stdlib Require Import Floats.SpecFloat.
From stdpp Require Import base gmap list strings.

Local Open Scope string_scope.
Local Open Scope Z_scope.

(** ** Python values and exceptions *)

(** The exception classes that can leave the module.  The module defines no
    exception class of its own; [UserDefined] stands for an exception of a
    class named by the application (none is raised by any definition below). *)
Inductive exn : Type :=
  | TypeError
  | ZeroDivisionError
  | OverflowError
  | OperationalError
  | IntegrityError
  | UserDefined (cls : string).

Inductive outcome (A : Type) : Type :=
  | Return (a : A)
  | Raise (e : exn).
Arguments Return {A} a.
Arguments Raise {A} e.

#[global] Instance outcome_ret : MRet outcome := fun A a => Return a.

#[global] Instance outcome_bind : MBind outcome := fun A B f x =>
  match x with
  | Return a => f a
  | Raise e => Raise e
  end.

(** [class Success(IntEnum)] *)
Inductive Success : Type := FALSE | TRUE.

Definition Success_value (s : Success) : Z :=
  match s with
  | FALSE => 0
  | TRUE => 1
  end.

Definition INPUT_FILE : string := "asl_data.csv".
Definition WORDS_TABLE : string := "words".
Definition SESSIONS_TABLE : string := "sessions".
Definition SCORES_TABLE : string := "scores".
Definition DB_FILE_NAME : string := "flash_cards.db".

(** ** Tables *)

(** A row of [words], without its key [_id]. *)
Record word_row : Type := WordRow { level : Z; word : string }.

(** A row of [sessions]; the table declares no key, so SQLite gives every
    row an implicit [ROWID]. *)
Record session_row : Type := SessionRow { ROWID : Z; date : string }.

Record score_row : Type :=
  ScoreRow { session_rowid : Z; word_id : Z; correct : Z }.

Record database : Type := Database {
  words : gmap Z word_row;
  sessions : list session_row;
  scores : list score_row
}.

(** The tables right after the [CREATE TABLE] statements. *)
Definition created_tables : database :=
  {| words := ∅; sessions := []; scores := [] |}.

(** Database files by path. *)
Abbreviation filesystem := (gmap string database).

(** ** Text helpers *)

Definition dquote : ascii := "034"%char.

Definition string_of_Z (z : Z) : string :=
  NilZero.string_of_int (Z.to_int z).

Definition lower_ascii (c : ascii) : ascii :=
  let n := N_of_ascii c in
  if ((65 <=? n) && (n <=? 90))%N then ascii_of_N (n + 32) else c.

Fixpoint lower (s : string) : string :=
  match s with
  | EmptyString => EmptyString
  | String c s' => String (lower_ascii c) (lower s')
  end.

(** Decimal digits of [n], least significant first, exactly [width] of them. *)
Fixpoint digits_rev (width : nat) (n : N) : list ascii :=
  match width with
  | O => []
  | S w => ascii_of_N (48 + n mod 10) :: digits_rev w (n / 10)
  end.

(** [n] in decimal, zero-padded to [width] characters (the [%0wd] of
    [datetime.isoformat]). *)
Definition zero_padded (width : nat) (n : N) : string :=
  string_of_list_ascii (rev (digits_rev width n)).

(** ** The clock *)

Record datetime : Type := Datetime {
  year : N; month : N; day : N;
  hour : N; minute : N; second : N; microsecond : N
}.

(** [datetime.isoformat()]: [YYYY-MM-DDTHH:MM:SS], followed by [.ffffff]
    when the microsecond field is not zero. *)
Definition isoformat (d : datetime) : string :=
  zero_padded 4 (year d) ++ "-" ++ zero_padded 2 (month d) ++ "-" ++
  zero_padded 2 (day d) ++ "T" ++ zero_padded 2 (hour d) ++ ":" ++
  zero_padded 2 (minute d) ++ ":" ++ zero_padded 2 (second d) ++
  (if (microsecond d =? 0)%N then EmptyString else "." ++ zero_padded 6 (microsecond d)).

(** ** Text spliced between double quotes

    Three templates wrap a formatted value in double quotes
    ([SQL_INSERT_NEW_SESSION], [SQL_INSERT_WORD], [sql_update_word]).
    SQLite's tokenizer reads from the opening quote: two adjacent quotes
    stand for one quote character of the token, a single quote closes it. *)
Inductive dq_token : Type :=
  | DqClosed (content : string)
      (** the token is closed by the quote of the template *)
  | DqUnterminated
      (** the last quote of the text pairs with the quote of the template and
          the token runs to the end of the statement: [unrecognized token] *)
  | DqSplit
      (** a quote inside the text closes the token and the rest of the text
          is read as SQL *).

Fixpoint dq_scan (text : string) : dq_token :=
  match text with
  | EmptyString => DqClosed EmptyString
  | String c rest =>
      if Ascii.eqb c dquote then
        match rest with
        | EmptyString => DqUnterminated
        | String c' rest' =>
            if Ascii.eqb c' dquote then
              match dq_scan rest' with
              | DqClosed s => DqClosed (String dquote s)
              | t => t
              end
            else DqSplit
        end
      else
        match dq_scan rest with
        | DqClosed s => DqClosed (String c s)
        | t => t
        end
  end.

(** In the [VALUES] list of an [INSERT] no column is in scope, so a closed
    double-quoted token is the string literal of its content.  A statement
    whose token is not closed by the template is rejected; for [DqSplit]
    this is the syntax error SQLite reports unless the remainder of the text
    happens to continue the statement (it may then add values, rows or
    assignments of its own).  The statements are exact for the texts that
    stay inside their quotes ([stays_quoted]); the properties stated for
    every text carry that hypothesis. *)
Definition dq_literal (text : string) : outcome string :=
  match dq_scan text with
  | DqClosed s => Return s
  | DqUnterminated => Raise OperationalError
  | DqSplit => Raise OperationalError
  end.

(** In [UPDATE words SET word="..."] the columns of [words] are in scope: a
    double-quoted token is an identifier first, and a string literal only
    when it names no column.  Names compare without regard to ASCII case;
    [rowid], [oid] and [_rowid_] name the integer primary key.  The column
    [word] has TEXT affinity, so an integer stored into it becomes its
    decimal text. *)
Definition dq_update_value (name : string) (_id : Z) (r : word_row) : string :=
  let k := lower name in
  if String.eqb k "word" then word r
  else if String.eqb k "level" then string_of_Z (level r)
  else if String.eqb k "_id" || String.eqb k "rowid"
          || String.eqb k "oid" || String.eqb k "_rowid_"
       then string_of_Z _id
  else name.

(** ** The SQL statements, one definition per formatted string *)

(** The rowid SQLite assigns to a row inserted into a table without an
    explicit key: one more than the largest in use, 1 in an empty table.
    (The search for a free rowid once 2^63-1 is in use is not modelled.) *)
Definition next_rowid (rows : list session_row) : Z :=
  foldr (fun r m => Z.max (ROWID r) m) 0 rows + 1.

(** [INSERT INTO sessions VALUES ("{}");] *)
Definition SQL_INSERT_NEW_SESSION (stamp : string) (db : database)
  : outcome database :=
  d ← dq_literal stamp;
  Return {| words := words db;
            sessions := sessions db ++ [SessionRow (next_rowid (sessions db)) d];
            scores := scores db |}.

(** The running maximum of [MAX(date)]: the candidate is replaced only by a
    row whose date is strictly greater (text compared byte by byte), so the
    bare column [ROWID] comes from the first row, in rowid order, that
    carries the maximal date. *)
Fixpoint max_date_row (best : session_row) (rows : list session_row)
  : session_row :=
  match rows with
  | [] => best
  | r :: rows' =>
      if String.ltb (date best) (date r) then max_date_row r rows'
      else max_date_row best rows'
  end.

(** [SELECT ROWID,MAX(date) FROM sessions;] followed by [fetchone()]: always
    one row, both columns NULL over an empty table. *)
Definition SQL_MOST_RECENT_SESSION (db : database) : option Z * option string :=
  match sessions db with
  | [] => (None, None)
  | r :: rows =>
      let b := max_date_row r rows in (Some (ROWID b), Some (date b))
  end.

(** [SELECT _id, word FROM words ORDER BY RANDOM() LIMIT 1;] followed by
    [fetchone()].  The draws of [RANDOM()] are abstracted to [pick], the
    position (modulo the number of rows) of the row they sort first. *)
Definition SQL_RANDOM_WORD (pick : nat) (db : database) : option (Z * string) :=
  let rows := map_to_list (words db) in
  match rows !! (pick mod length rows)%nat with
  | Some (i, r) => Some (i, word r)
  | None => None
  end.

(** [INSERT INTO scores VALUES({},{},{});]  Exact for identifiers in the
    64-bit range ([int64]); the numeral of an integer beyond it is stored as
    the double next to it. *)
Definition SQL_INSERT_SCORE (session_id w_id c : Z) (db : database) : database :=
  {| words := words db;
     sessions := sessions db;
     scores := scores db ++ [ScoreRow session_id w_id c] |}.

(** [WHERE session_rowid={}]: exact when the identifier and the stored
    values are in the 64-bit range ([int64], [int64_scores]). *)
Definition in_session (session_id : Z) (s : score_row) : bool :=
  Z.eqb (session_rowid s) session_id.

(** [SELECT COUNT( * ) AS count FROM scores WHERE session_rowid={};] *)
Definition SQL_SESSION_TOTAL (session_id : Z) (db : database) : Z :=
  Z.of_nat (length (List.filter (in_session session_id) (scores db))).

(** [SELECT SUM(CORRECT) as correct FROM scores WHERE session_rowid={};]
    [SUM] over no row is NULL. *)
Definition SQL_SCORE_SESSION (session_id : Z) (db : database) : option Z :=
  match List.filter (in_session session_id) (scores db) with
  | [] => None
  | rows => Some (foldr (fun s acc => correct s + acc) 0 rows)
  end.

(** [SELECT scores.word_id, words.word FROM scores, words WHERE words._id =
    scores.word_id AND scores.session_rowid={} AND scores.correct=0;]
    followed by [fetchall()]: one result row per matching row of [scores]
    whose word is in [words] (the key makes the match unique), listed in the
    order of [scores]. *)
Fixpoint SQL_INCORRECT_WORDS_rows (ws : gmap Z word_row) (session_id : Z)
    (rows : list score_row) : list (Z * string) :=
  match rows with
  | [] => []
  | s :: rows' =>
      let rest := SQL_INCORRECT_WORDS_rows ws session_id rows' in
      if in_session session_id s && Z.eqb (correct s) 0 then
        match ws !! word_id s with
        | Some w => (word_id s, word w) :: rest
        | None => rest
        end
      else rest
  end.

Definition SQL_INCORRECT_WORDS (session_id : Z) (db : database)
  : list (Z * string) :=
  SQL_INCORRECT_WORDS_rows (words db) session_id (scores db).

(** [INSERT INTO words (_id, level, word) VALUES({},{},"{}");]  A key already
    in the table violates the primary key.  Exact for a number and a level
    in the 64-bit range and a text that stays inside its quotes and holds no
    NUL character ([storable], [stays_quoted]). *)
Definition SQL_INSERT_WORD (number lvl : Z) (text : string) (db : database)
  : outcome database :=
  t ← dq_literal text;
  match words db !! number with
  | Some _ => Raise IntegrityError
  | None =>
      Return {| words := <[number := WordRow lvl t]> (words db);
                sessions := sessions db;
                scores := scores db |}
  end.

(** [SELECT _id,level,word FROM words WHERE _id={};] followed by
    [fetchone()]. *)
Definition sql_find_word_by_id (number : Z) (db : database)
  : option (Z * Z * string) :=
  match words db !! number with
  | Some r => Some (number, level r, word r)
  | None => None
  end.

(** [UPDATE words SET word="{}" WHERE _id={};]  Exact for a number in the
    64-bit range and a text that stays inside its quotes and holds no NUL
    character ([storable], [stays_quoted]). *)
Definition sql_update_word (text : string) (number : Z) (db : database)
  : outcome database :=
  match dq_scan text with
  | DqClosed name =>
      match words db !! number with
      | Some r =>
          Return {| words := <[number := WordRow (level r)
                                            (dq_update_value name number r)]>
                               (words db);
                    sessions := sessions db;
                    scores := scores db |}
      | None => Return db
      end
  | DqUnterminated => Raise OperationalError
  | DqSplit => Raise OperationalError
  end.

(** ** Python floats *)

Definition float_prec : Z := 53.
Definition float_emax : Z := 1024.

(** [float(n)] for an [int]: the nearest double, ties to even;
    [OverflowError] when [n] is too large for a double. *)
Definition float_of_int (n : Z) : outcome spec_float :=
  match binary_normalize float_prec float_emax n 0 false with
  | S754_infinity _ => Raise OverflowError
  | x => Return x
  end.

(** [float(v)] for a value fetched from an integer column: [None] (SQL NULL)
    is no number. *)
Definition py_float (v : option Z) : outcome spec_float :=
  match v with
  | None => Raise TypeError
  | Some n => float_of_int n
  end.

(** [x / y] on floats. *)
Definition float_truediv (x y : spec_float) : outcome spec_float :=
  match y with
  | S754_zero _ => Raise ZeroDivisionError
  | _ => Return (SFdiv float_prec float_emax x y)
  end.

(** ** class FlashCardsModel *)

Module FlashCardsModel.

(** An instance: the argument it was built with and the path its
    connection was opened on. *)
Record t : Type := Instance_ { _db_file : string; _con : string }.

(** [__init__]: [self._con = sqlite3.connect(DB_FILE_NAME)]. *)
Definition __init__ (db_file : string) : t :=
  {| _db_file := db_file; _con := DB_FILE_NAME |}.

(** A method body runs its statements on the database of the connection. *)
Definition method (A : Type) : Type := database -> database * outcome A.

(** Calling a method of [self]: the body runs on the file the connection
    was opened on; without tables the first statement fails. *)
Definition call {A : Type} (self : t) (body : method A) (fs : filesystem)
  : filesystem * outcome A :=
  match fs !! _con self with
  | Some db => let '(db', r) := body db in (<[_con self := db']> fs, r)
  | None => (fs, Raise OperationalError)
  end.

(** [new_session]: insert a row stamped with the clock, then return column
    0 of the most-recent-session query. *)
Definition new_session (now : datetime) : method (option Z) := fun db =>
  match SQL_INSERT_NEW_SESSION (isoformat now) db with
  | Return db' =>
      let row := SQL_MOST_RECENT_SESSION db' in
      (db', Return (fst row))
  | Raise e => (db, Raise e)
  end.

(** [get_random_word]: [row[0]], [row[1]] of the fetched row; subscripting
    the [None] that [fetchone()] gives for an empty result is a
    [TypeError]. *)
Definition get_random_word (pick : nat) : method (Z * string) := fun db =>
  match SQL_RANDOM_WORD pick db with
  | Some row => (db, Return (fst row, snd row))
  | None => (db, Raise TypeError)
  end.

Definition score_word (session_id w_id : Z) (success : bool) : method unit :=
  fun db =>
    (SQL_INSERT_SCORE session_id w_id
       (Success_value (if success then TRUE else FALSE)) db,
     Return tt).

(** [get_session_score]: [float(correct) / float(count)], the left operand
    evaluated first. *)
Definition get_session_score (session_id : Z) : method spec_float := fun db =>
  let count := SQL_SESSION_TOTAL session_id db in
  let correct_sum := SQL_SCORE_SESSION session_id db in
  (db,
   x ← py_float correct_sum;
   y ← py_float (Some count);
   float_truediv x y).

Definition get_incorrect_words (session_id : Z) : method (list (Z * string)) :=
  fun db =>
    let rows := SQL_INCORRECT_WORDS session_id db in
    (db, Return (foldl (fun incorrect_words row =>
                          (incorrect_words ++ [(fst row, snd row)])%list)
                       [] rows)).

End FlashCardsModel.

(** ** The loaders *)

(** A record of the CSV reader, its two numerals read as integers (of any
    size: the reader hands the fields over as text). *)
Record csv_record : Type := CsvRecord { Number : Z; Level : Z; Word : string }.

(** The insert loop of [erase_and_recreate_tables]; the first failing
    statement ends it. *)
Fixpoint insert_records (reader : list csv_record) (db : database)
  : outcome database :=
  match reader with
  | [] => Return db
  | record :: rest =>
      db' ← SQL_INSERT_WORD (Number record) (Level record) (Word record) db;
      insert_records rest db'
  end.

(** [erase_and_recreate_tables]: the [DROP]/[CREATE] statements take effect
    as they run; the inserts are committed together at the end, and rolled
    back together when one of them raises. *)
Definition erase_and_recreate_tables (reader : list csv_record)
    (fs : filesystem) : filesystem * outcome unit :=
  match insert_records reader created_tables with
  | Return db => (<[DB_FILE_NAME := db]> fs, Return tt)
  | Raise e => (<[DB_FILE_NAME := created_tables]> fs, Raise e)
  end.

(** The counters [update_word_list] prints. *)
Record counters : Type := Counters { checked : Z; updated : Z; added : Z }.

(** One turn of the loop of [update_word_list]. *)
Definition sync_record (record : csv_record) (st : database * counters)
  : outcome (database * counters) :=
  let '(db, c) := st in
  let c := {| checked := checked c + 1; updated := updated c; added := added c |} in
  match sql_find_word_by_id (Number record) db with
  | Some row =>
      if negb (String.eqb (snd row) (Word record)) then
        db' ← sql_update_word (Word record) (Number record) db;
        Return (db', {| checked := checked c; updated := updated c + 1;
                        added := added c |})
      else Return (db, c)
  | None =>
      db' ← SQL_INSERT_WORD (Number record) (Level record) (Word record) db;
      Return (db', {| checked := checked c; updated := updated c;
                      added := added c + 1 |})
  end.

Fixpoint sync_records (reader : list csv_record) (st : database * counters)
  : outcome (database * counters) :=
  match reader with
  | [] => Return st
  | record :: rest => st' ← sync_record record st; sync_records rest st'
  end.

(** [update_word_list]: the loop over the records, then the commit; an
    exception rolls everything back.  On a file without tables the first
    [SELECT] fails, so only an empty source gets through. *)
Definition update_word_list (reader : list csv_record) (fs : filesystem)
  : filesystem * outcome counters :=
  match fs !! DB_FILE_NAME with
  | Some db =>
      match sync_records reader (db, Counters 0 0 0) with
      | Return (db', c) => (<[DB_FILE_NAME := db']> fs, Return c)
      | Raise e => (fs, Raise e)
      end
  | None =>
      match reader with
      | [] => (fs, Return (Counters 0 0 0))
      | _ :: _ => (fs, Raise OperationalError)
      end
  end.

(** ** The drill of [test()] *)

(** What the drill can fail with: an exception of the model, or the
    [IndexError] of subscripting an empty line. *)
Inductive fault : Type :=
  | ModelFault (e : exn)
  | IndexError.

(** The lines the drill prints, each with the values it is formatted from
    (the formatting of the text itself is not modelled). *)
Inductive printed : Type :=
  | SessionCreated (session_id : option Z)
  | Question (text : string)
  | Percent (value : spec_float)
  | WorkOn
  | Missed (w_id : Z) (text : string).

(** The world of the drill: the database files, the lines still to be read
    from standard input, the lines printed so far. *)
Record console : Type := Console {
  files : filesystem;
  stdin : list string;
  stdout : list printed
}.

(** [stdin.readline()]: the next line, the empty string at end of input. *)
Definition readline (lines : list string) : string * list string :=
  match lines with
  | [] => (EmptyString, [])
  | line :: rest => (line, rest)
  end.

(** [user_input.lower()[0] == "y"]; [None] is the [IndexError] of an empty
    string. *)
Definition answered_yes (user_input : string) : option bool :=
  match user_input with
  | EmptyString => None
  | String c _ => Some (Ascii.eqb (lower_ascii c) "y"%char)
  end.

(** A method called with the value [new_session] returned: [None] formats
    as a name no table has, which the statement rejects. *)
Definition call_for {A : Type} (model : FlashCardsModel.t)
    (session_id : option Z) (body : Z -> FlashCardsModel.method A)
    (fs : filesystem) : filesystem * outcome A :=
  match session_id with
  | Some id => FlashCardsModel.call model (body id) fs
  | None => (fs, Raise OperationalError)
  end.

(** [score * 100]: the integer is converted, then the doubles multiplied. *)
Definition float_times_int (x : spec_float) (n : Z) : outcome spec_float :=
  y ← float_of_int n; Return (SFmul float_prec float_emax x y).

(** The loop [for a in range(5)], from question [a] with [remaining]
    questions to go; [draws a] stands for the draws of question [a]. *)
Fixpoint ask_words (model : FlashCardsModel.t) (session_id : option Z)
    (draws : nat -> nat) (a remaining : nat) (w : console)
  : console * option fault :=
  match remaining with
  | O => (w, None)
  | S remaining' =>
      match FlashCardsModel.call model
              (FlashCardsModel.get_random_word (draws a)) (files w) with
      | (fs1, Raise e) =>
          ({| files := fs1; stdin := stdin w; stdout := stdout w |},
           Some (ModelFault e))
      | (fs1, Return (w_id, text)) =>
          let out := (stdout w ++ [Question text])%list in
          let '(user_input, rest) := readline (stdin w) in
          match answered_yes user_input with
          | None =>
              ({| files := fs1; stdin := rest; stdout := out |}, Some IndexError)
          | Some score =>
              match call_for model session_id
                      (fun id => FlashCardsModel.score_word id w_id score) fs1 with
              | (fs2, Raise e) =>
                  ({| files := fs2; stdin := rest; stdout := out |},
                   Some (ModelFault e))
              | (fs2, Return _) =>
                  ask_words model session_id draws (S a) remaining'
                    {| files := fs2; stdin := rest; stdout := out |}
              end
          end
      end
  end.

(** [test()]: open the model, start a session, ask five words, report. *)
Definition test (now : datetime) (draws : nat -> nat) (w : console)
  : console * option fault :=
  let model := FlashCardsModel.__init__ DB_FILE_NAME in
  match FlashCardsModel.call model (FlashCardsModel.new_session now) (files w) with
  | (fs0, Raise e) =>
      ({| files := fs0; stdin := stdin w; stdout := stdout w |},
       Some (ModelFault e))
  | (fs0, Return session_id) =>
      let w0 := {| files := fs0; stdin := stdin w;
                   stdout := (stdout w ++ [SessionCreated session_id])%list |} in
      match ask_words model session_id draws 0 5 w0 with
      | (w1, Some f) => (w1, Some f)
      | (w1, None) =>
          match call_for model session_id FlashCardsModel.get_session_score
                  (files w1) with
          | (fs2, Raise e) =>
              ({| files := fs2; stdin := stdin w1; stdout := stdout w1 |},
               Some (ModelFault e))
          | (fs2, Return score) =>
              match call_for model session_id
                      FlashCardsModel.get_incorrect_words fs2 with
              | (fs3, Raise e) =>
                  ({| files := fs3; stdin := stdin w1; stdout := stdout w1 |},
                   Some (ModelFault e))
              | (fs3, Return incorrect_words) =>
                  match float_times_int score 100 with
                  | Raise e =>
                      ({| files := fs3; stdin := stdin w1; stdout := stdout w1 |},
                       Some (ModelFault e))
                  | Return percent =>
                      ({| files := fs3; stdin := stdin w1;
                          stdout := (stdout w1 ++ [Percent percent; WorkOn]
                                     ++ map (fun row => Missed (fst row) (snd row))
                                            incorrect_words)%list |},
                       None)
                  end
              end
          end
      end
  end.

(** ** Vocabulary of the properties *)

(** The rows of [scores] recorded for a session, and those of them marked
    correct. *)
Definition attempts (session_id : Z) (db : database) : list score_row :=
  List.filter (in_session session_id) (scores db).

Definition correct_attempts (session_id : Z) (db : database) : list score_row :=
  List.filter (fun s => Z.eqb (correct s) 1) (attempts session_id db).

(** Every recorded outcome is 0 or 1, as [score_word] writes them. *)
Definition boolean_scores (db : database) : Prop :=
  Forall (fun s => correct s = 0 ∨ correct s = 1) (scores db).

(** The integers SQLite holds as integers: the 64-bit range.  The rowids of
    [sessions] and the keys of [words] are always in it. *)
Definition int64 (z : Z) : Prop := - 2 ^ 63 ≤ z < 2 ^ 63.

#[global] Instance int64_dec (z : Z) : Decision (int64 z) :=
  ltac:(unfold int64; apply _).

(** Every identifier recorded in [scores] is held as an integer (a row
    written from a numeral beyond the range holds a double instead). *)
Definition int64_scores (db : database) : Prop :=
  Forall (fun s => int64 (session_rowid s) ∧ int64 (word_id s)) (scores db).

#[global] Instance int64_scores_dec (db : database) : Decision (int64_scores db) :=
  ltac:(unfold int64_scores; apply _).

(** A text without the NUL character, which [execute] refuses in a
    statement. *)
Fixpoint nul_free (text : string) : bool :=
  match text with
  | EmptyString => true
  | String c rest => negb (Ascii.eqb c "000"%char) && nul_free rest
  end.

(** A record whose fields reach SQLite as the loaders format them: number
    and level in the 64-bit range, the text without NUL character. *)
Definition storable (record : csv_record) : Prop :=
  int64 (Number record) ∧ int64 (Level record) ∧ nul_free (Word record) = true.

#[global] Instance storable_dec (record : csv_record) : Decision (storable record) :=
  ltac:(unfold storable; apply _).

(** A text that stays inside the double quotes it is spliced between: no
    quote of its own closes the token and hands the rest of the text to the
    SQL parser.  (Adjacent pairs of quotes, and a last quote that leaves the
    token open, stay inside.) *)
Definition stays_quoted (text : string) : bool :=
  match dq_scan text with
  | DqSplit => false
  | _ => true
  end.

(** The databases the program builds: a load, completed or failed, followed
    by sessions, scores and synchronizations in any order. *)
Inductive built : database -> Prop :=
  | built_tables : built created_tables
  | built_load reader db :
      insert_records reader created_tables = Return db -> built db
  | built_new_session now db :
      built db -> built (fst (FlashCardsModel.new_session now db))
  | built_score_word session_id w_id success db :
      built db ->
      built (fst (FlashCardsModel.score_word session_id w_id success db))
  | built_update reader db db' c :
      built db ->
      sync_records reader (db, Counters 0 0 0) = Return (db', c) -> built db'.

(** The row [SQL_MOST_RECENT_SESSION] reads its columns from. *)
Definition most_recent (rows : list session_row) : option session_row :=
  match rows with
  | [] => None
  | r :: rows' => Some (max_date_row r rows')
  end.

(** A text without the double-quote character. *)
Fixpoint sql_plain (text : string) : bool :=
  match text with
  | EmptyString => true
  | String c rest => negb (Ascii.eqb c dquote) && sql_plain rest
  end.

(** A text that spells, in any case, a column of [words] or a name of its
    integer key. *)
Definition names_column (text : string) : bool :=
  let k := lower text in
  String.eqb k "word" || String.eqb k "level" || String.eqb k "_id"
  || String.eqb k "rowid" || String.eqb k "oid" || String.eqb k "_rowid_".

(** A text that both word templates hand to the store as it is. *)
Definition verbatim (text : string) : bool :=
  sql_plain text && negb (names_column text).

(** The catalog a list of records describes. *)
Definition catalog_of (reader : list csv_record) : gmap Z word_row :=
  list_to_map ((fun r => (Number r, WordRow (Level r) (Word r))) <$> reader).

(** The signals the specification names for a session without attempts. *)
Definition no_attempts_signal (r : outcome spec_float) : Prop :=
  r = Raise ZeroDivisionError ∨ r = Raise (UserDefined "NoAttempts").

(** The doubles 0.0 and 1.0. *)
Definition float_zero : spec_float := S754_zero false.
Definition float_one : spec_float := S754_finite false 4503599627370496 (-52).

(** The double [x] holds the integer [n] exactly. *)
Definition float_holds (x : spec_float) (n : Z) : Prop :=
  match x with
  | S754_zero _ => n = 0
  | S754_finite s m e => e ≤ 0 ∧ cond_Zopp s (Zpos m) = n * 2 ^ (- e)
  | _ => False
  end.

(** [l] places the fraction [num/den] of a unit: nothing, less than a half,
    a half, or more than a half. *)
Definition locates (l : location) (num den : Z) : Prop :=
  match l with
  | loc_Exact => num = 0
  | loc_Inexact Lt => 0 < num ∧ 2 * num < den
  | loc_Inexact Eq => 2 * num = den
  | loc_Inexact Gt => den < 2 * num
  end.

(** The double [q] is within half a unit in its last place of [c/k]. *)
Definition float_nearest (q : spec_float) (c k : Z) : Prop :=
  match q with
  | S754_zero _ => c = 0
  | S754_finite false m e =>
      e ≤ 0 ∧ - k ≤ 2 * (Zpos m * k - c * 2 ^ (- e)) ≤ k
  | _ => False
  end.

(** The three ways one turn of the synchronization loop moves the counters. *)
Definition count_checked (c : counters) : counters :=
  {| checked := checked c + 1; updated := updated c; added := added c |}.
Definition count_updated (c : counters) : counters :=
  {| checked := checked c + 1; updated := updated c + 1; added := added c |}.
Definition count_added (c : counters) : counters :=
  {| checked := checked c + 1; updated := updated c; added := added c + 1 |}.

(** ** Stores and sources used in the examples *)

Definition three_words : list csv_record :=
  [CsvRecord 1 1 "hello"; CsvRecord 2 1 "thank you"; CsvRecord 7 2 "NEW"].

Definition store_with_old_word : filesystem :=
  {[ DB_FILE_NAME := {| words := {[ 7 := WordRow 5 "OLD" ]};
                        sessions := [SessionRow 1 "2024-01-01T12:00:00"];
                        scores := [ScoreRow 1 7 0] |} ]}.

Definition three_of_five : database :=
  {| words := ∅;
     sessions := [SessionRow 1 "2024-01-01T12:00:00"];
     scores := [ScoreRow 1 5 1; ScoreRow 1 4 0; ScoreRow 2 4 1; ScoreRow 1 3 1;
                ScoreRow 1 2 1; ScoreRow 1 2 0] |}.

Definition missed_words : database :=
  {| words := {[ 2 := WordRow 1 "thank you"; 4 := WordRow 1 "apple";
                 5 := WordRow 2 "hello" ]};
     sessions := [SessionRow 1 "2024-01-01T12:00:00";
                  SessionRow 2 "2024-01-02T12:00:00"];
     scores := [ScoreRow 1 5 1; ScoreRow 1 4 0; ScoreRow 2 5 0; ScoreRow 1 2 1;
                ScoreRow 1 2 0; ScoreRow 1 9 0; ScoreRow 1 4 0] |}.

(** ** Vocabulary of the further properties *)

(** A datetime as Python builds them: every field within the width
    [isoformat] prints it in. *)
Definition valid_datetime (d : datetime) : Prop :=
  (year d < 10000 ∧ month d < 100 ∧ day d < 100 ∧ hour d < 100
   ∧ minute d < 100 ∧ second d < 100 ∧ microsecond d < 1000000)%N.

(** Chronological comparison: field by field, the year first. *)
Definition then_compare (c c' : comparison) : comparison :=
  match c with
  | Eq => c'
  | _ => c
  end.

Definition datetime_compare (d1 d2 : datetime) : comparison :=
  then_compare (year d1 ?= year d2)%N
    (then_compare (month d1 ?= month d2)%N
       (then_compare (day d1 ?= day d2)%N
          (then_compare (hour d1 ?= hour d2)%N
             (then_compare (minute d1 ?= minute d2)%N
                (then_compare (second d1 ?= second d2)%N
                   (microsecond d1 ?= microsecond d2)%N))))).

Definition one_session : database :=
  {| words := ∅;
     sessions := [SessionRow 1 "2024-01-01T12:00:00"];
     scores := [] |}.

Definition two_words : database :=
  {| words := {[ 1 := WordRow 1 "hello"; 2 := WordRow 1 "thank you" ]};
     sessions := []; scores := [] |}.

Definition all_correct : database :=
  {| words := ∅; sessions := [];
     scores := [ScoreRow 1 5 1; ScoreRow 2 4 0; ScoreRow 1 3 1] |}.

(** The attempts of a session on a word that were marked wrong. *)
Definition missed_attempts (session_id w_id : Z) (db : database) : list score_row :=
  List.filter (fun s => in_session session_id s && Z.eqb (correct s) 0
                        && Z.eqb (word_id s) w_id) (scores db).


(** The outcome [score_word] writes for an answer line. *)
Definition outcome_of_answer (user_input : string) : Z :=
  match answered_yes user_input with
  | Some true => 1
  | _ => 0
  end.

(** [db] with [rows] appended to its scores. *)
Definition with_scores (db : database) (rows : list score_row) : database :=
  {| words := words db; sessions := sessions db;
     scores := (scores db ++ rows)%list |}.

Definition five_answers : console :=
  {| files := {[ DB_FILE_NAME := two_words ]};
     stdin := ["yes"; "n"; "Y"; "no idea"; "y"; "left over"];
     stdout := [] |}.

Import FlashCardsModel.

(** * Properties *)

(** A closed decidable proposition, settled by evaluating its decision. *)
Ltac by_decision := refine (bool_decide_unpack _ _); vm_compute; exact I.

(** ** Text templates *)

Lemma dq_scan_plain text : sql_plain text = true → dq_scan text = DqClosed text.
Proof.
  induction text as [|c rest IH]; simpl; [done|].
  intros [Hc Hrest]%andb_true_iff.
  apply negb_true_iff in Hc. rewrite Hc. by rewrite (IH Hrest).
Qed.

Lemma dq_literal_plain text : sql_plain text = true → dq_literal text = Return text.
Proof. intros H. unfold dq_literal. by rewrite (dq_scan_plain _ H). Qed.

Lemma dq_update_value_literal text n r :
  names_column text = false → dq_update_value text n r = text.
Proof.
  unfold names_column, dq_update_value. cbv zeta.
  intros H. repeat (apply orb_false_iff in H as [H ?]).
  repeat match goal with
         | Heq : String.eqb _ _ = false |- _ => rewrite Heq; clear Heq
         end.
  done.
Qed.

Lemma verbatim_plain text : verbatim text = true → sql_plain text = true.
Proof. by intros [? _]%andb_true_iff. Qed.

Lemma verbatim_no_column text : verbatim text = true → names_column text = false.
Proof. intros [_ H]%andb_true_iff. by apply negb_true_iff in H. Qed.

(** ** Session reporter: the missed words *)

Lemma foldl_snoc_pairs {A B : Type} (rows acc : list (A * B)) :
  foldl (fun incorrect_words row => (incorrect_words ++ [(fst row, snd row)])%list)
        acc rows = (acc ++ rows)%list.
Proof.
  revert acc. induction rows as [|[a b] rows IH]; intros acc; simpl.
  - by rewrite app_nil_r.
  - rewrite IH. by rewrite <- app_assoc.
Qed.

Lemma get_incorrect_words_rows session_id db :
  get_incorrect_words session_id db
  = (db, Return (SQL_INCORRECT_WORDS session_id db)).
Proof. unfold get_incorrect_words. by rewrite foldl_snoc_pairs. Qed.

Lemma incorrect_rows_sound ws session_id rows w_id text :
  (w_id, text) ∈ SQL_INCORRECT_WORDS_rows ws session_id rows →
  (∃ s, s ∈ rows ∧ session_rowid s = session_id ∧ word_id s = w_id
        ∧ correct s = 0)
  ∧ (∃ lvl, ws !! w_id = Some (WordRow lvl text)).
Proof.
  induction rows as [|s rows IH]; simpl.
  - intros H. by apply elem_of_nil in H.
  - destruct (in_session session_id s && Z.eqb (correct s) 0) eqn:Hsel.
    + apply andb_true_iff in Hsel as [Hs Hc].
      apply Z.eqb_eq in Hs, Hc.
      destruct (ws !! word_id s) as [[lvl t]|] eqn:Hw.
      * intros [Heq|Hin]%elem_of_cons.
        -- inversion Heq; subst. split; [|by exists lvl].
           exists s. split; [left|done].
        -- destruct (IH Hin) as [(s' & Hs' & ?) ?]. split; [|done].
           exists s'. split; [by right|done].
      * intros Hin. destruct (IH Hin) as [(s' & Hs' & ?) ?]. split; [|done].
        exists s'. split; [by right|done].
    + intros Hin. destruct (IH Hin) as [(s' & Hs' & ?) ?]. split; [|done].
      exists s'. split; [by right|done].
Qed.

(** The join keeps one row per incorrect attempt: a word missed twice is
    listed twice. *)
Example incorrect_words_keeps_duplicates :
  let db := {| words := {[ 4 := WordRow 1 "apple" ]};
               sessions := [];
               scores := [ScoreRow 1 4 0; ScoreRow 1 4 1; ScoreRow 1 4 0] |} in
  snd (get_incorrect_words 1 db) = Return [(4, "apple"); (4, "apple")].
Proof. reflexivity. Qed.

(** C8. On a store whose recorded identifiers are integers, for a session
    identifier in the 64-bit range: every pair [(word_id, text)] that
    [get_incorrect_words] returns is backed by a row of [scores] of that
    session for that word with [correct = 0], and [text] is the stored text
    of the word; a word whose attempts in the session are all marked
    correct is not returned. *)
Theorem get_incorrect_words_only_missed (session_id : Z) (db : database) :
  int64 session_id →
  int64_scores db →
  ∃ rows,
    get_incorrect_words session_id db = (db, Return rows)
    ∧ (∀ w_id text, (w_id, text) ∈ rows →
         (∃ s, s ∈ scores db ∧ session_rowid s = session_id
               ∧ word_id s = w_id ∧ correct s = 0)
         ∧ (∃ lvl, words db !! w_id = Some (WordRow lvl text)))
    ∧ (∀ w_id,
         (∀ s, s ∈ scores db → session_rowid s = session_id →
               word_id s = w_id → correct s = 1) →
         ∀ text, (w_id, text) ∉ rows).
Proof.
  intros _ _.
  exists (SQL_INCORRECT_WORDS session_id db).
  split; [apply get_incorrect_words_rows|]. split.
  - intros w_id text. apply incorrect_rows_sound.
  - intros w_id Hall text Hin.
    apply incorrect_rows_sound in Hin as [(s & Hs & Hsid & Hw & Hc) _].
    specialize (Hall s Hs Hsid Hw). lia.
Qed.

(** In [missed_words] session 1 missed "apple" twice and "thank you" once;
    "hello" was missed in session 2 only, and word 9 is not in the
    catalog. *)
Lemma get_incorrect_words_only_missed_witness :
  ∃ rows,
    get_incorrect_words 1 missed_words = (missed_words, Return rows)
    ∧ rows = [(4, "apple"); (2, "thank you"); (4, "apple")]
    ∧ (∃ s, s ∈ scores missed_words ∧ session_rowid s = 1
            ∧ word_id s = 4 ∧ correct s = 0)
    ∧ (∀ text, (5, text) ∉ rows).
Proof.
  destruct (get_incorrect_words_only_missed 1 missed_words)
    as (rows & Hrows & Hbacked & Hnever); [by_decision|by_decision|].
  assert (Hlist : rows = [(4, "apple"); (2, "thank you"); (4, "apple")]).
  { vm_compute in Hrows. by injection Hrows as <-. }
  exists rows. split; [exact Hrows|]. split; [exact Hlist|]. split.
  - apply (Hbacked 4 "apple"). rewrite Hlist. left.
  - apply Hnever. intros s Hs Hsession Hw.
    simpl in Hs.
    repeat (apply elem_of_cons in Hs as [->|Hs]; [simpl in *; lia|]).
    by apply elem_of_nil in Hs.
Defined.

(** ** Score recorder *)

(** C9. For identifiers in the 64-bit range, [score_word] never fails and
    never looks the session or the word up: it appends the single row
    [(session_id, word_id, 1)] or [(session_id, word_id, 0)] after the rows
    already in [scores], and leaves [words] and [sessions] as they were. *)
Theorem score_word_appends_one_row
    (session_id w_id : Z) (success : bool) (db : database) :
  int64 session_id →
  int64 w_id →
  ∃ db',
    score_word session_id w_id success db = (db', Return tt)
    ∧ scores db' = (scores db
                    ++ [ScoreRow session_id w_id (if success then 1 else 0)])%list
    ∧ length (scores db') = S (length (scores db))
    ∧ words db' = words db
    ∧ sessions db' = sessions db.
Proof.
  intros _ _.
  eexists. split; [reflexivity|]. simpl.
  repeat split.
  - by destruct success.
  - rewrite length_app. simpl. lia.
Qed.

(** A score for session 42 and word 99, neither of which is stored. *)
Lemma score_word_appends_one_row_witness :
  ∃ db',
    score_word 42 99 false missed_words = (db', Return tt)
    ∧ scores db' = (scores missed_words ++ [ScoreRow 42 99 0])%list
    ∧ length (scores db') = 8%nat
    ∧ words db' = words missed_words
    ∧ sessions db' = sessions missed_words.
Proof.
  destruct (score_word_appends_one_row 42 99 false missed_words)
    as (db' & Hrun & Hscores & Hlen & Hwords & Hsessions);
    [by_decision|by_decision|].
  exists db'. repeat split; try done.
Defined.

(** The session and the word need not exist. *)
Example score_word_orphan :
  score_word 42 99 true created_tables
  = ({| words := ∅; sessions := []; scores := [ScoreRow 42 99 1] |}, Return tt).
Proof. reflexivity. Qed.

Lemma score_word_boolean session_id w_id success db :
  boolean_scores db → boolean_scores (fst (score_word session_id w_id success db)).
Proof.
  unfold boolean_scores. simpl. intros H. apply Forall_app. split; [done|].
  apply Forall_singleton. simpl. destruct success; auto.
Qed.

(** The other operations leave [scores] alone or empty it, so outcomes stay
    0 or 1 in every store the program builds. *)
Lemma created_tables_boolean : boolean_scores created_tables.
Proof. constructor. Qed.

Lemma new_session_scores now db : scores (fst (new_session now db)) = scores db.
Proof.
  unfold new_session, SQL_INSERT_NEW_SESSION.
  by destruct (dq_literal (isoformat now)).
Qed.

(** ** Word sampler *)

Lemma SQL_RANDOM_WORD_empty pick db : words db = ∅ → SQL_RANDOM_WORD pick db = None.
Proof. intros H. unfold SQL_RANDOM_WORD. rewrite H, map_to_list_empty. done. Qed.

(** C4, as the code has it. On an empty catalog [get_random_word] fails with
    the [TypeError] of subscripting the [None] that [fetchone()] returned,
    whatever the random draws, and the store is unchanged. *)
Theorem get_random_word_empty_catalog (pick : nat) (db : database) :
  words db = ∅ → get_random_word pick db = (db, Raise TypeError).
Proof.
  intros H. unfold get_random_word. by rewrite (SQL_RANDOM_WORD_empty _ _ H).
Qed.

Lemma get_random_word_empty_catalog_witness :
  words created_tables = ∅
  ∧ get_random_word 0 created_tables = (created_tables, Raise TypeError).
Proof.
  split; [reflexivity|].
  apply (get_random_word_empty_catalog 0 created_tables). reflexivity.
Defined.

(** C4, as stated, fails: the error raised on an empty catalog is not an
    [EmptyCatalog] error. *)
Lemma get_random_word_no_EmptyCatalog :
  words created_tables = ∅
  ∧ snd (get_random_word 0 created_tables) ≠ Raise (UserDefined "EmptyCatalog").
Proof. split; [reflexivity|]. simpl. discriminate. Qed.

(** On a catalog with words the sampler returns a stored word. *)
Lemma get_random_word_stored pick db :
  words db ≠ ∅ →
  ∃ i r, words db !! i = Some r
         ∧ get_random_word pick db = (db, Return (i, word r)).
Proof.
  intros Hne. unfold get_random_word, SQL_RANDOM_WORD.
  assert (Hlen : (0 < length (map_to_list (words db)))%nat).
  { destruct (map_to_list (words db)) eqn:E; [|simpl; lia].
    by apply map_to_list_empty_iff in E. }
  destruct (lookup_lt_is_Some_2 (map_to_list (words db))
              (pick mod length (map_to_list (words db)))%nat) as [[i r] Hir].
  { apply Nat.mod_upper_bound. lia. }
  rewrite Hir. exists i, r. split; [|done].
  apply elem_of_map_to_list. eapply list_elem_of_lookup_2. exact Hir.
Qed.

(** ** Session reporter: a session without attempts *)

(** C2, as the code has it. On a store whose recorded identifiers are
    integers, for a session identifier in the 64-bit range without a row in
    [scores], [SUM(CORRECT)] is NULL and [float(None)] raises [TypeError]
    before the division is reached; no value is returned and the store is
    unchanged. *)
Theorem get_session_score_no_attempts (session_id : Z) (db : database) :
  int64 session_id →
  int64_scores db →
  attempts session_id db = [] →
  get_session_score session_id db = (db, Raise TypeError).
Proof.
  intros _ _ H. unfold get_session_score, SQL_SCORE_SESSION.
  fold (attempts session_id db). by rewrite H.
Qed.

(** Session 3 of [missed_words] has no attempt; sessions 1 and 2 have. *)
Lemma get_session_score_no_attempts_witness :
  attempts 3 missed_words = []
  ∧ get_session_score 3 missed_words = (missed_words, Raise TypeError).
Proof.
  split; [reflexivity|].
  apply (get_session_score_no_attempts 3 missed_words);
    [by_decision|by_decision|reflexivity].
Defined.

(** C2, as stated, fails: the fault of a session without attempts is neither
    a division by zero nor a [NoAttempts] error. *)
Lemma get_session_score_not_division_by_zero :
  attempts 1 created_tables = []
  ∧ ¬ no_attempts_signal (snd (get_session_score 1 created_tables)).
Proof.
  split; [reflexivity|].
  intros [H|H]; simpl in H; discriminate.
Qed.

(** ** The constructor *)

(** C10. Whatever [db_file] is, the connection of the instance is opened on
    ["flash_cards.db"]: a method call has the same effect and the same
    result through instances built with any two arguments, a score recorded
    through one is read back through the other, and a file named by the
    argument, when it is another file, is never touched. *)
Theorem init_ignores_db_file (db_file : string) :
  _con (__init__ db_file) = "flash_cards.db"
  ∧ _db_file (__init__ db_file) = db_file
  ∧ (∀ (other : string) (A : Type) (body : method A) (fs : filesystem),
       call (__init__ db_file) body fs = call (__init__ other) body fs)
  ∧ (∀ (other : string) (fs : filesystem) (db : database)
       (session_id w_id : Z) (success : bool),
       fs !! DB_FILE_NAME = Some db →
       ∃ db',
         score_word session_id w_id success db = (db', Return tt)
         ∧ snd (call (__init__ other) (get_incorrect_words session_id)
                  (fst (call (__init__ db_file)
                          (score_word session_id w_id success) fs)))
           = snd (get_incorrect_words session_id db'))
  ∧ (∀ (A : Type) (body : method A) (fs : filesystem),
       db_file ≠ DB_FILE_NAME →
       fst (call (__init__ db_file) body fs) !! db_file = fs !! db_file).
Proof.
  split; [reflexivity|]. split; [reflexivity|]. split; [reflexivity|]. split.
  - intros other fs db session_id w_id success Hdb.
    eexists. split; [reflexivity|].
    unfold call. simpl. rewrite Hdb. simpl.
    by rewrite lookup_insert_eq.
  - intros A body fs Hne. unfold call. simpl.
    destruct (fs !! DB_FILE_NAME) as [db|]; [|done].
    destruct (body db) as [db' r]. simpl.
    by rewrite lookup_insert_ne.
Qed.

Lemma init_ignores_db_file_witness :
  _con (__init__ "practice.db") = "flash_cards.db"
  ∧ fst (call (__init__ "practice.db") (score_word 1 7 false)
           {[ "practice.db" := three_of_five ]}) !! "practice.db"
    = Some three_of_five.
Proof.
  destruct (init_ignores_db_file "practice.db") as (Hcon & _ & _ & _ & Hframe).
  split; [exact Hcon|].
  rewrite (Hframe unit (score_word 1 7 false) {[ "practice.db" := three_of_five ]}).
  - reflexivity.
  - discriminate.
Defined.

(** Two instances built with different arguments share their store. *)
Example two_instances_one_store :
  let fs : filesystem := {[ "flash_cards.db" := created_tables ]} in
  let a := __init__ "a.db" in
  let b := __init__ "b.db" in
  let fs' := fst (call a (score_word 1 7 false) fs) in
  fs' !! "a.db" = None ∧ fs' !! "b.db" = None
  ∧ (scores <$> fs' !! "flash_cards.db") = Some [ScoreRow 1 7 0]
  ∧ snd (call b (get_session_score 1) fs')
    = Return (S754_zero false).
Proof. vm_compute. done. Qed.

(** ** Session manager *)

Lemma sql_plain_app a b : sql_plain (a ++ b) = sql_plain a && sql_plain b.
Proof.
  induction a as [|c a IH]; simpl; [done|]. rewrite IH. by rewrite andb_assoc.
Qed.

Lemma sql_plain_of_list (l : list ascii) :
  Forall (fun c => c ≠ dquote) l → sql_plain (string_of_list_ascii l) = true.
Proof.
  induction 1 as [|c l Hc _ IH]; simpl; [done|].
  rewrite IH, andb_true_r. apply negb_true_iff. by apply Ascii.eqb_neq.
Qed.

Lemma digit_not_dquote (n : N) : ascii_of_N (48 + n mod 10) ≠ dquote.
Proof.
  intros H. apply (f_equal N_of_ascii) in H.
  assert (Hlt : (n mod 10 < 10)%N) by (apply N.mod_upper_bound; lia).
  assert (Hb : (48 + n mod 10 < 256)%N) by lia.
  rewrite (N_ascii_embedding _ Hb) in H.
  change (N_of_ascii dquote) with 34%N in H.
  clear Hlt Hb. generalize dependent (n mod 10)%N. intros m Hm. lia.
Qed.

Lemma digits_rev_plain width n : Forall (fun c => c ≠ dquote) (digits_rev width n).
Proof.
  revert n. induction width as [|w IH]; intros n; simpl; constructor.
  - apply digit_not_dquote.
  - apply IH.
Qed.

Lemma zero_padded_plain width n : sql_plain (zero_padded width n) = true.
Proof.
  unfold zero_padded. apply sql_plain_of_list.
  apply List.Forall_rev, digits_rev_plain.
Qed.

Lemma isoformat_plain d : sql_plain (isoformat d) = true.
Proof.
  unfold isoformat. rewrite !sql_plain_app, !zero_padded_plain. simpl.
  destruct (microsecond d =? 0)%N; [done|].
  rewrite sql_plain_app, zero_padded_plain. done.
Qed.

Lemma string_compare_refl s : String.compare s s = Eq.
Proof.
  pose proof (String.compare_antisym s s) as H.
  destruct (String.compare s s); simpl in H; congruence.
Qed.

Lemma ascii_compare_trans a b c :
  Ascii.compare a b = Lt → Ascii.compare b c = Lt → Ascii.compare a c = Lt.
Proof.
  unfold Ascii.compare. rewrite !N.compare_lt_iff. lia.
Qed.

Lemma string_compare_trans a b c :
  String.compare a b = Lt → String.compare b c = Lt → String.compare a c = Lt.
Proof.
  revert b c. induction a as [|x a IH]; intros [|y b] [|z c]; simpl; try done.
  destruct (Ascii.compare x y) eqn:Hxy; [|intros _|done].
  - apply Ascii.compare_eq_iff in Hxy as ->.
    destruct (Ascii.compare y z); [apply IH|done|done].
  - destruct (Ascii.compare y z) eqn:Hyz; [|intros _|done].
    + apply Ascii.compare_eq_iff in Hyz as <-. by rewrite Hxy.
    + by rewrite (ascii_compare_trans _ _ _ Hxy Hyz).
Qed.

Lemma ltb_irrefl s : String.ltb s s = false.
Proof. unfold String.ltb. by rewrite string_compare_refl. Qed.

Lemma ltb_trans a b c :
  String.ltb a b = true → String.ltb b c = true → String.ltb a c = true.
Proof.
  unfold String.ltb.
  destruct (String.compare a b) eqn:Hab; try done.
  destruct (String.compare b c) eqn:Hbc; try done.
  by rewrite (string_compare_trans _ _ _ Hab Hbc).
Qed.

Lemma ltb_total a b :
  String.ltb a b = false → String.ltb b a = false → a = b.
Proof.
  unfold String.ltb. rewrite (String.compare_antisym b a).
  destruct (String.compare a b) eqn:Hab; simpl; try done.
  intros _ _. by apply String.compare_eq_iff.
Qed.

(** Once a row is the running maximum, no later row with a date that is not
    strictly greater replaces it. *)
Lemma ltb_upper_trans m b x :
  String.ltb m b = false → String.ltb b x = false → String.ltb m x = false.
Proof.
  intros Hmb Hbx. destruct (String.ltb m x) eqn:Hmx; [|done].
  destruct (String.ltb x b) eqn:Hxb.
  - by rewrite (ltb_trans _ _ _ Hmx Hxb) in Hmb.
  - rewrite (ltb_total _ _ Hbx Hxb) in Hmb. congruence.
Qed.

Lemma max_date_row_snoc best rows r :
  max_date_row best (rows ++ [r])
  = if String.ltb (date (max_date_row best rows)) (date r) then r
    else max_date_row best rows.
Proof.
  revert best. induction rows as [|x rows IH]; intros best; simpl; [done|].
  destruct (String.ltb (date best) (date x)); apply IH.
Qed.

Lemma max_date_row_in best rows : max_date_row best rows ∈ best :: rows.
Proof.
  revert best. induction rows as [|x rows IH]; intros best; simpl; [left|].
  destruct (String.ltb (date best) (date x)).
  - right. apply IH.
  - specialize (IH best). apply elem_of_cons in IH as [->|?]; [left|by right; right].
Qed.

Lemma max_date_row_ge_best best rows :
  String.ltb (date (max_date_row best rows)) (date best) = false.
Proof.
  revert best. induction rows as [|x rows IH]; intros best; simpl.
  - apply ltb_irrefl.
  - destruct (String.ltb (date best) (date x)) eqn:Hbx; [|apply IH].
    destruct (String.ltb (date (max_date_row x rows)) (date best)) eqn:Hm; [|done].
    pose proof (IH x) as Hx. by rewrite (ltb_trans _ _ _ Hm Hbx) in Hx.
Qed.

Lemma max_date_row_upper best rows x :
  x ∈ best :: rows →
  String.ltb (date (max_date_row best rows)) (date x) = false.
Proof.
  revert best. induction rows as [|y rows IH]; intros best.
  - intros ->%list_elem_of_singleton. apply ltb_irrefl.
  - simpl. destruct (String.ltb (date best) (date y)) eqn:Hby.
    + intros [->|Hx]%elem_of_cons; [|by apply IH].
      apply ltb_upper_trans with (date y).
      * apply max_date_row_ge_best.
      * destruct (String.ltb (date y) (date best)) eqn:Hyb; [|done].
        pose proof (ltb_trans _ _ _ Hby Hyb) as Habs.
        by rewrite ltb_irrefl in Habs.
    + intros [->|[->|Hx]%elem_of_cons]%elem_of_cons.
      * apply IH. left.
      * apply ltb_upper_trans with (date best); [apply max_date_row_ge_best|done].
      * apply IH. by right.
Qed.

Lemma most_recent_snoc rows r :
  most_recent (rows ++ [r])
  = Some match most_recent rows with
         | None => r
         | Some m => if String.ltb (date m) (date r) then r else m
         end.
Proof.
  destruct rows as [|x rows]; simpl; [done|]. by rewrite max_date_row_snoc.
Qed.

Lemma most_recent_in rows m : most_recent rows = Some m → m ∈ rows.
Proof.
  destruct rows as [|x rows]; simpl; [done|].
  intros [= <-]. apply max_date_row_in.
Qed.

Lemma most_recent_upper rows m x :
  most_recent rows = Some m → x ∈ rows → String.ltb (date m) (date x) = false.
Proof.
  destruct rows as [|y rows]; simpl; [done|].
  intros [= <-]. apply max_date_row_upper.
Qed.

Lemma SQL_MOST_RECENT_SESSION_row db :
  SQL_MOST_RECENT_SESSION db
  = (ROWID <$> most_recent (sessions db), date <$> most_recent (sessions db)).
Proof. unfold SQL_MOST_RECENT_SESSION. by destruct (sessions db). Qed.

Lemma next_rowid_above rows x : x ∈ rows → ROWID x < next_rowid rows.
Proof.
  unfold next_rowid. induction rows as [|y rows IH]; simpl.
  - intros H. by apply elem_of_nil in H.
  - intros [->|Hx]%elem_of_cons; [lia|]. specialize (IH Hx). lia.
Qed.

(** [new_session] never fails: it appends the stamped row under a fresh
    rowid and returns the rowid of the first row carrying the greatest
    date. *)
Lemma new_session_effect now db :
  let inserted := SessionRow (next_rowid (sessions db)) (isoformat now) in
  let db' := {| words := words db;
                sessions := (sessions db ++ [inserted])%list;
                scores := scores db |} in
  new_session now db = (db', Return (ROWID <$> most_recent (sessions db'))).
Proof.
  unfold new_session, SQL_INSERT_NEW_SESSION.
  rewrite (dq_literal_plain _ (isoformat_plain now)). simpl.
  by rewrite SQL_MOST_RECENT_SESSION_row.
Qed.

(** With a clock reading later than every stored date, the row just
    inserted is the one whose rowid is returned. *)
Lemma new_session_later_clock now db :
  (∀ s, s ∈ sessions db → String.ltb (date s) (isoformat now) = true) →
  snd (new_session now db) = Return (Some (next_rowid (sessions db))).
Proof.
  intros Hlater. rewrite new_session_effect. simpl.
  rewrite most_recent_snoc.
  destruct (most_recent (sessions db)) as [m|] eqn:Hm; [|done].
  simpl. by rewrite (Hlater m (most_recent_in _ _ Hm)).
Qed.

(** With a clock reading equal to the previous one, the second call returns
    the identifier the first call returned, which is not the rowid of the
    row the second call inserted. *)
Lemma new_session_same_stamp now db db1 r1 db2 r2 :
  new_session now db = (db1, r1) →
  new_session now db1 = (db2, r2) →
  r2 = r1 ∧ r2 ≠ Return (Some (next_rowid (sessions db1))).
Proof.
  rewrite !new_session_effect. cbv zeta.
  intros [= <- <-] [= <- <-]. simpl.
  rewrite (most_recent_snoc (sessions db ++ _)).
  destruct (most_recent (sessions db ++ _)) as [m|] eqn:Hm.
  2:{ by rewrite most_recent_snoc in Hm. }
  assert (Hin : SessionRow (next_rowid (sessions db)) (isoformat now)
                ∈ (sessions db ++ [SessionRow (next_rowid (sessions db)) (isoformat now)])%list).
  { apply elem_of_app. right. left. }
  pose proof (most_recent_upper _ _ _ Hm Hin) as Hup. simpl in Hup.
  simpl. rewrite Hup. split; [done|].
  intros [= Heq]. pose proof (next_rowid_above _ _ (most_recent_in _ _ Hm)). lia.
Qed.

(** C3, at two calls that read the same clock value. Both calls return 1:
    the second call inserts the row with rowid 2 and returns the rowid of
    the row of the first call. *)
Theorem new_session_repeats_id_on_equal_timestamps :
  let now := Datetime 2024 1 1 12 0 0 0 in
  let '(db1, first) := new_session now created_tables in
  let '(db2, second) := new_session now db1 in
  first = Return (Some 1)
  ∧ second = Return (Some 1)
  ∧ sessions db2 = [SessionRow 1 "2024-01-01T12:00:00";
                    SessionRow 2 "2024-01-01T12:00:00"].
Proof. vm_compute. done. Qed.

(** The same happens when the clock was set back between the calls. *)
Example new_session_repeats_id_on_earlier_clock :
  let '(db1, first) := new_session (Datetime 2024 11 3 1 59 59 0) created_tables in
  let '(db2, second) := new_session (Datetime 2024 11 3 1 0 0 0) db1 in
  first = Return (Some 1) ∧ second = Return (Some 1)
  ∧ map ROWID (sessions db2) = [1; 2].
Proof. vm_compute. done. Qed.

(** ** Word store loader: the statements on verbatim text *)

Lemma SQL_INSERT_WORD_plain number lvl text db :
  sql_plain text = true →
  SQL_INSERT_WORD number lvl text db
  = match words db !! number with
    | Some _ => Raise IntegrityError
    | None => Return {| words := <[number := WordRow lvl text]> (words db);
                        sessions := sessions db;
                        scores := scores db |}
    end.
Proof. intros H. unfold SQL_INSERT_WORD. by rewrite (dq_literal_plain _ H). Qed.

Lemma sql_update_word_verbatim text number db r :
  verbatim text = true →
  words db !! number = Some r →
  sql_update_word text number db
  = Return {| words := <[number := WordRow (level r) text]> (words db);
              sessions := sessions db;
              scores := scores db |}.
Proof.
  intros Hv Hr. unfold sql_update_word.
  rewrite (dq_scan_plain _ (verbatim_plain _ Hv)), Hr.
  by rewrite (dq_update_value_literal _ _ _ (verbatim_no_column _ Hv)).
Qed.

(** One turn of the synchronization loop on a verbatim text: a stored word
    with another text gets the source text and keeps its level, a stored
    word with the same text is skipped, a missing word is inserted; each
    case moves exactly its own counter. *)
Lemma sync_record_verbatim record db c :
  verbatim (Word record) = true →
  sync_record record (db, c)
  = Return
      match words db !! Number record with
      | Some r =>
          if String.eqb (word r) (Word record) then (db, count_checked c)
          else ({| words := <[Number record := WordRow (level r) (Word record)]>
                              (words db);
                   sessions := sessions db;
                   scores := scores db |}, count_updated c)
      | None =>
          ({| words := <[Number record := WordRow (Level record) (Word record)]>
                         (words db);
              sessions := sessions db;
              scores := scores db |}, count_added c)
      end.
Proof.
  intros Hv. unfold sync_record, sql_find_word_by_id.
  destruct (words db !! Number record) as [r|] eqn:Hr; simpl.
  - destruct (String.eqb (word r) (Word record)); simpl; [done|].
    by rewrite (sql_update_word_verbatim _ _ _ _ Hv Hr).
  - rewrite (SQL_INSERT_WORD_plain _ _ _ _ (verbatim_plain _ Hv)), Hr. done.
Qed.

Lemma sync_record_history record db c db' c' :
  sync_record record (db, c) = Return (db', c') →
  sessions db' = sessions db ∧ scores db' = scores db.
Proof.
  unfold sync_record, sql_find_word_by_id, sql_update_word, SQL_INSERT_WORD.
  destruct (words db !! Number record) as [r|] eqn:Hr; simpl.
  - destruct (negb _).
    + destruct (dq_scan (Word record)); simpl; [|done..].
      by intros [= <- <-].
    + by intros [= <- <-].
  - destruct (dq_literal (Word record)); simpl; [|done].
    by intros [= <- <-].
Qed.

Lemma sync_records_cons record rest st :
  sync_records (record :: rest) st
  = sync_record record st ≫= sync_records rest.
Proof. reflexivity. Qed.

Lemma sync_records_history reader db c db' c' :
  sync_records reader (db, c) = Return (db', c') →
  sessions db' = sessions db ∧ scores db' = scores db.
Proof.
  revert db c. induction reader as [|record rest IH]; intros db c.
  - by intros [= <- <-].
  - rewrite sync_records_cons.
    destruct (sync_record record (db, c)) as [[db1 c1]|] eqn:H1; simpl; [|done].
    intros H2. apply sync_record_history in H1 as [<- <-]. by apply (IH _ _ H2).
Qed.

Lemma sync_record_stores record db c db' c' :
  verbatim (Word record) = true →
  sync_record record (db, c) = Return (db', c') →
  (∃ r, words db' !! Number record = Some r ∧ word r = Word record)
  ∧ (∀ n, n ≠ Number record → words db' !! n = words db !! n).
Proof.
  intros Hv. rewrite (sync_record_verbatim _ _ _ Hv).
  destruct (words db !! Number record) as [r|] eqn:Hr.
  - destruct (String.eqb (word r) (Word record)) eqn:Heq; intros [= <- <-].
    + apply String.eqb_eq in Heq. split; [by exists r|done].
    + simpl. split.
      * eexists. by rewrite lookup_insert_eq.
      * intros n Hn. by rewrite lookup_insert_ne.
  - intros [= <- <-]. simpl. split.
    + eexists. by rewrite lookup_insert_eq.
    + intros n Hn. by rewrite lookup_insert_ne.
Qed.

Lemma sync_records_frame reader db c db' c' :
  Forall (fun r => verbatim (Word r) = true) reader →
  sync_records reader (db, c) = Return (db', c') →
  ∀ n, n ∉ Number <$> reader → words db' !! n = words db !! n.
Proof.
  intros Hv. revert db c.
  induction Hv as [|record rest Hrec _ IH]; intros db c.
  - by intros [= <- <-].
  - rewrite sync_records_cons.
    destruct (sync_record record (db, c)) as [[db1 c1]|] eqn:H1; simpl; [|done].
    intros H2 n Hn. apply not_elem_of_cons in Hn as [Hne Hn].
    rewrite (IH _ _ H2 n Hn).
    by apply (sync_record_stores _ _ _ _ _ Hrec H1).
Qed.

(** After a pass over a source with pairwise distinct numbers, every record
    of the source is stored under its number with its text. *)
Lemma sync_records_settles reader db c db' c' :
  NoDup (Number <$> reader) →
  Forall (fun r => verbatim (Word r) = true) reader →
  sync_records reader (db, c) = Return (db', c') →
  ∀ record, record ∈ reader →
    ∃ r, words db' !! Number record = Some r ∧ word r = Word record.
Proof.
  intros Hnd Hv. revert db c Hnd.
  induction Hv as [|record rest Hrec Hrest IH]; intros db c Hnd.
  - intros _ x Hx. by apply elem_of_nil in Hx.
  - rewrite fmap_cons in Hnd. apply NoDup_cons in Hnd as [Hfresh Hnd].
    rewrite sync_records_cons.
    destruct (sync_record record (db, c)) as [[db1 c1]|] eqn:H1; simpl; [|done].
    intros H2 x [->|Hx]%elem_of_cons.
    + rewrite (sync_records_frame _ _ _ _ _ Hrest H2 _ Hfresh).
      by apply (sync_record_stores _ _ _ _ _ Hrec H1).
    + by apply (IH _ _ Hnd H2).
Qed.

(** A pass over a source whose records are all stored with their text
    changes nothing and only counts the records. *)
Lemma sync_records_fixed reader db c :
  (∀ record, record ∈ reader →
     ∃ r, words db !! Number record = Some r ∧ word r = Word record) →
  sync_records reader (db, c)
  = Return (db, {| checked := checked c + Z.of_nat (length reader);
                   updated := updated c; added := added c |}).
Proof.
  revert c. induction reader as [|record rest IH]; intros c Hall.
  - destruct c. simpl. by rewrite Z.add_0_r.
  - destruct (Hall record) as (r & Hr & Heq); [left|].
    rewrite sync_records_cons.
    unfold sync_record, sql_find_word_by_id. rewrite Hr. simpl.
    rewrite Heq, String.eqb_refl. simpl.
    rewrite IH.
    + simpl. do 2 f_equal. f_equal. lia.
    + intros x Hx. apply Hall. by right.
Qed.

(** ** Word store loader: synchronization *)

(** C5, as the code has it. Over a source whose numbers are pairwise
    distinct and whose texts are verbatim, a run of [update_word_list] that
    follows a completed run reports every record as checked, none as updated
    and none as added, and leaves the whole store, the catalog included, as
    the first run left it. *)
Theorem update_word_list_idempotent
    (reader : list csv_record) (fs fs1 : filesystem) (c1 : counters) :
  NoDup (Number <$> reader) →
  Forall (fun r => verbatim (Word r) = true) reader →
  update_word_list reader fs = (fs1, Return c1) →
  update_word_list reader fs1
  = (fs1, Return (Counters (Z.of_nat (length reader)) 0 0)).
Proof.
  intros Hnd Hv. unfold update_word_list.
  destruct (fs !! DB_FILE_NAME) as [db|] eqn:Hdb.
  - destruct (sync_records reader (db, Counters 0 0 0)) as [[db1 c]|] eqn:H1;
      [|done].
    intros [= <- <-]. rewrite lookup_insert_eq.
    rewrite (sync_records_fixed reader db1 (Counters 0 0 0)).
    + simpl. by rewrite insert_insert_eq.
    + by apply (sync_records_settles _ _ _ _ _ Hnd Hv H1).
  - destruct reader as [|record rest]; [|done].
    intros [= <- <-]. by rewrite Hdb.
Qed.

Lemma update_word_list_idempotent_witness :
  let fs1 := fst (update_word_list three_words store_with_old_word) in
  snd (update_word_list three_words store_with_old_word) = Return (Counters 3 1 2)
  ∧ update_word_list three_words fs1 = (fs1, Return (Counters 3 0 0)).
Proof.
  split; [vm_compute; reflexivity|].
  apply (update_word_list_idempotent three_words store_with_old_word
           _ (Counters 3 1 2)).
  - by_decision.
  - by_decision.
  - vm_compute. reflexivity.
Defined.

(** C5, as stated, fails: over a source that lists a number twice with two
    texts, the run after a completed run reports two updates, not none. *)
Lemma update_word_list_not_idempotent_on_repeated_number :
  let reader := [CsvRecord 7 1 "A"; CsvRecord 7 1 "B"] in
  let fs : filesystem := {[ DB_FILE_NAME := created_tables ]} in
  let '(fs1, first) := update_word_list reader fs in
  let '(fs2, second) := update_word_list reader fs1 in
  first = Return (Counters 2 1 1)
  ∧ second = Return (Counters 2 2 0)
  ∧ second ≠ Return (Counters 2 0 0).
Proof. vm_compute. split; [done|]. split; done. Qed.

(** C6, at the stored word [(7, level 5, "OLD")] and the source record
    [(7, 5, "word")]. The run counts one update, and the stored text is
    still ["OLD"]: in [UPDATE words SET word="word" WHERE _id=7;] the quoted
    token names the column, so the row is assigned its own text.  The next
    run counts the same update again. *)
Theorem update_word_list_text_naming_a_column :
  let reader := [CsvRecord 7 5 "word"] in
  let '(fs1, first) := update_word_list reader store_with_old_word in
  let '(fs2, second) := update_word_list reader fs1 in
  first = Return (Counters 1 1 0)
  ∧ (words <$> fs1 !! DB_FILE_NAME) = Some {[ 7 := WordRow 5 "OLD" ]}
  ∧ second = Return (Counters 1 1 0).
Proof. vm_compute. done. Qed.

(** A text that names another column stores the value of that column. *)
Example update_word_list_text_naming_level :
  let '(fs1, first) :=
    update_word_list [CsvRecord 7 5 "Level"] store_with_old_word in
  first = Return (Counters 1 1 0)
  ∧ (words <$> fs1 !! DB_FILE_NAME) = Some {[ 7 := WordRow 5 "5" ]}.
Proof. vm_compute. done. Qed.

(** The update of the specification, on a verbatim text. *)
Example update_word_list_old_to_new :
  let '(fs1, first) :=
    update_word_list [CsvRecord 7 2 "NEW"] store_with_old_word in
  first = Return (Counters 1 1 0)
  ∧ (words <$> fs1 !! DB_FILE_NAME) = Some {[ 7 := WordRow 5 "NEW" ]}.
Proof. vm_compute. done. Qed.

(** Synchronization leaves the session and score history alone. *)
Lemma update_word_list_history reader fs fs' c db :
  fs !! DB_FILE_NAME = Some db →
  update_word_list reader fs = (fs', Return c) →
  ∃ db', fs' !! DB_FILE_NAME = Some db'
         ∧ sessions db' = sessions db ∧ scores db' = scores db.
Proof.
  intros Hdb. unfold update_word_list. rewrite Hdb.
  destruct (sync_records reader (db, Counters 0 0 0)) as [[db1 c1]|] eqn:H1;
    [|done].
  intros [= <- <-]. exists db1. rewrite lookup_insert_eq. split; [done|].
  by apply (sync_records_history _ _ _ _ _ H1).
Qed.

(** ** Word store loader: full replace *)

Lemma insert_records_cons record rest db :
  insert_records (record :: rest) db
  = SQL_INSERT_WORD (Number record) (Level record) (Word record) db
    ≫= insert_records rest.
Proof. reflexivity. Qed.

Lemma SQL_INSERT_WORD_history number lvl text db db' :
  SQL_INSERT_WORD number lvl text db = Return db' →
  sessions db' = sessions db ∧ scores db' = scores db.
Proof.
  unfold SQL_INSERT_WORD. destruct (dq_literal text); simpl; [|done].
  destruct (words db !! number); [done|]. by intros [= <-].
Qed.

Lemma insert_records_history reader db db' :
  insert_records reader db = Return db' →
  sessions db' = sessions db ∧ scores db' = scores db.
Proof.
  revert db. induction reader as [|record rest IH]; intros db.
  - by intros [= <-].
  - rewrite insert_records_cons.
    destruct (SQL_INSERT_WORD _ _ _ db) as [db1|] eqn:H1; simpl; [|done].
    intros H2. apply SQL_INSERT_WORD_history in H1 as [<- <-]. by apply IH.
Qed.

(** Whether the load completes or fails, the file ends with empty
    [sessions] and [scores]: the history that was there is gone. *)
Lemma erase_and_recreate_tables_resets reader fs :
  ∃ db, fst (erase_and_recreate_tables reader fs) !! DB_FILE_NAME = Some db
        ∧ sessions db = [] ∧ scores db = [].
Proof.
  unfold erase_and_recreate_tables.
  destruct (insert_records reader created_tables) as [db|] eqn:H; simpl.
  - exists db. rewrite lookup_insert_eq. split; [done|].
    by apply insert_records_history in H.
  - exists created_tables. by rewrite lookup_insert_eq.
Qed.

Lemma insert_records_plain reader db :
  NoDup (Number <$> reader) →
  Forall (fun r => sql_plain (Word r) = true) reader →
  (∀ n, n ∈ Number <$> reader → words db !! n = None) →
  insert_records reader db
  = Return {| words := catalog_of reader ∪ words db;
              sessions := sessions db;
              scores := scores db |}.
Proof.
  intros Hnd Hp. revert db Hnd.
  induction Hp as [|record rest Hrec _ IH]; intros db Hnd Hfree.
  - simpl. unfold catalog_of. simpl. rewrite (left_id_L ∅ (∪)). by destruct db.
  - rewrite fmap_cons in Hnd. apply NoDup_cons in Hnd as [Hfresh Hnd].
    rewrite insert_records_cons, (SQL_INSERT_WORD_plain _ _ _ _ Hrec).
    rewrite (Hfree (Number record)) by left. simpl.
    rewrite IH; [|done|].
    + simpl. f_equal. f_equal. unfold catalog_of. rewrite fmap_cons. simpl.
      rewrite <- insert_union_l. symmetry. apply insert_union_r.
      apply not_elem_of_list_to_map_1. rewrite <- list_fmap_compose.
      exact Hfresh.
    + simpl. intros n Hn. rewrite lookup_insert_ne.
      * apply Hfree. by right.
      * intros <-. done.
Qed.

(** On a source with pairwise distinct numbers and texts free of double
    quotes the load completes and the file holds the catalog of the source,
    no session and no score. *)
Lemma erase_and_recreate_tables_plain reader fs :
  NoDup (Number <$> reader) →
  Forall (fun r => sql_plain (Word r) = true) reader →
  erase_and_recreate_tables reader fs
  = (<[DB_FILE_NAME := {| words := catalog_of reader;
                          sessions := []; scores := [] |}]> fs,
     Return tt).
Proof.
  intros Hnd Hp. unfold erase_and_recreate_tables.
  rewrite (insert_records_plain _ _ Hnd Hp); [|done].
  simpl. by rewrite (right_id_L ∅ (∪)).
Qed.

(** A number listed twice violates the primary key; the load fails and the
    tables stay empty. *)
Example erase_and_recreate_tables_repeated_number :
  erase_and_recreate_tables [CsvRecord 7 1 "A"; CsvRecord 7 1 "B"]
                            store_with_old_word
  = ({[ DB_FILE_NAME := created_tables ]}, Raise IntegrityError).
Proof. vm_compute. reflexivity. Qed.

(** C7, at a source whose text holds two adjacent double quotes. The load
    completes and empties [sessions] and [scores], and the text stored for
    the word is not the text supplied: the statement
    [INSERT INTO words (_id, level, word) VALUES(1,1,"a..b");] carries the
    two quotes inside a double-quoted token, where they stand for one. *)
Theorem erase_and_recreate_tables_doubled_quote :
  let supplied := String "a" (String dquote (String dquote "b")) in
  let stored := String "a" (String dquote "b") in
  let '(fs', r) :=
    erase_and_recreate_tables [CsvRecord 1 1 supplied] store_with_old_word in
  r = Return tt
  ∧ fs' !! DB_FILE_NAME
    = Some {| words := {[ 1 := WordRow 1 stored ]};
              sessions := []; scores := [] |}
  ∧ stored ≠ supplied.
Proof. vm_compute. done. Qed.

(** ** The databases the program builds *)

(** Every database the program builds records outcomes 0 and 1 only. *)
Lemma built_boolean_scores db : built db → boolean_scores db.
Proof.
  induction 1 as [|reader db Hload|now db _ IH|session_id w_id success db _ IH
                 |reader db db' c _ IH Hsync].
  - constructor.
  - apply insert_records_history in Hload as [_ Hscores].
    unfold boolean_scores. rewrite Hscores. constructor.
  - unfold boolean_scores. by rewrite new_session_scores.
  - by apply score_word_boolean.
  - apply sync_records_history in Hsync as [_ Hscores].
    unfold boolean_scores. by rewrite Hscores.
Qed.

(** ** Binary64 arithmetic *)

Lemma digits2_pos_bounds p :
  2 ^ (Zpos (digits2_pos p) - 1) ≤ Zpos p < 2 ^ Zpos (digits2_pos p).
Proof.
  induction p as [p IH|p IH|]; simpl digits2_pos.
  - rewrite Pos2Z.inj_succ. change (Zpos p~1) with (2 * Zpos p + 1).
    replace (Z.succ (Zpos (digits2_pos p)) - 1)
      with (Z.succ (Zpos (digits2_pos p) - 1)) by lia.
    rewrite !Z.pow_succ_r by lia. lia.
  - rewrite Pos2Z.inj_succ. change (Zpos p~0) with (2 * Zpos p).
    replace (Z.succ (Zpos (digits2_pos p)) - 1)
      with (Z.succ (Zpos (digits2_pos p) - 1)) by lia.
    rewrite !Z.pow_succ_r by lia. lia.
  - simpl. lia.
Qed.

Lemma digits2_pos_unique p n :
  2 ^ (n - 1) ≤ Zpos p < 2 ^ n → Zpos (digits2_pos p) = n.
Proof.
  intros [Hlo Hhi]. pose proof (digits2_pos_bounds p) as [Hlo' Hhi'].
  assert (0 < n).
  { destruct (Z.lt_trichotomy n 0) as [Hn|[->|Hn]]; [|simpl in Hhi; lia|done].
    rewrite Z.pow_neg_r in Hhi by done. lia. }
  destruct (Z.lt_trichotomy (Zpos (digits2_pos p)) n) as [Hlt|[Heq|Hgt]]; [|done|].
  - assert (2 ^ Zpos (digits2_pos p) ≤ 2 ^ (n - 1)) by (apply Z.pow_le_mono_r; lia).
    lia.
  - assert (2 ^ n ≤ 2 ^ (Zpos (digits2_pos p) - 1)) by (apply Z.pow_le_mono_r; lia).
    lia.
Qed.

Lemma iter_xO_value p n : Zpos (Pos.iter xO p n) = Zpos p * 2 ^ Zpos n.
Proof.
  induction n as [|n IH] using Pos.peano_ind.
  - simpl. lia.
  - rewrite Pos.iter_succ, Pos2Z.inj_succ, Z.pow_succ_r by lia.
    change (Zpos (Pos.iter xO p n)~0) with (2 * Zpos (Pos.iter xO p n)).
    rewrite IH. lia.
Qed.

Lemma iter_xO_digits p n :
  digits2_pos (Pos.iter xO p n) = (digits2_pos p + n)%positive.
Proof.
  induction n as [|n IH] using Pos.peano_ind.
  - simpl. lia.
  - rewrite Pos.iter_succ. simpl. rewrite IH. lia.
Qed.

(** The exponent of a double in the normal range. *)
Lemma fexp_normal e :
  -1021 ≤ e → fexp float_prec float_emax e = e - 53.
Proof. unfold fexp, emin, float_prec, float_emax. lia. Qed.

Lemma loc_of_shr_record_of_loc m l :
  loc_of_shr_record (shr_record_of_loc m l) = l.
Proof. by destruct l as [|[]]. Qed.

Lemma shr_m_of_loc m l : shr_m (shr_record_of_loc m l) = m.
Proof. by destruct l as [|[]]. Qed.

(** The second normalization of [binary_round_aux]: a mantissa of 53 bits is
    kept, the mantissa 2^53 becomes 2^52 one exponent up. *)
Lemma renormalize (s : bool) (r e : Z) :
  2 ^ 52 ≤ r ≤ 2 ^ 53 → -1021 ≤ e ≤ 900 →
  ∃ m e',
    (let '(mrs, e'') := shr_fexp float_prec float_emax r e loc_Exact in
     match shr_m mrs with
     | Z0 => S754_zero s
     | Zpos m0 =>
         if Z.leb e'' (float_emax - float_prec) then S754_finite s m0 e''
         else S754_infinity s
     | Zneg _ => S754_nan
     end) = S754_finite s m e'
    ∧ ((r < 2 ^ 53 ∧ Zpos m = r ∧ e' = e)
       ∨ (r = 2 ^ 53 ∧ Zpos m = 2 ^ 52 ∧ e' = e + 1)).
Proof.
  change (2 ^ 52) with 4503599627370496. change (2 ^ 53) with 9007199254740992.
  intros Hr He. destruct r as [|p|p]; try lia.
  destruct (Z.eq_dec (Zpos p) 9007199254740992) as [Heq|Hne].
  - assert (p = 9007199254740992%positive) as -> by lia.
    exists 4503599627370496%positive, (e + 1).
    split; [|right; done].
    unfold shr_fexp.
    change (Zdigits2 (Zpos 9007199254740992)) with 54.
    rewrite fexp_normal by lia.
    replace (54 + e - 53 - e) with 1 by lia.
    unfold shr, iter_pos, shr_1, shr_record_of_loc, shr_m.
    destruct (Z.leb_spec (e + 1) (float_emax - float_prec)); [done|].
    unfold float_emax, float_prec in *. lia.
  - exists p, e. split; [|left; lia].
    unfold shr_fexp. unfold Zdigits2.
    rewrite (digits2_pos_unique p 53)
      by (change (2 ^ (53 - 1)) with 4503599627370496;
          change (2 ^ 53) with 9007199254740992; lia).
    rewrite fexp_normal by lia.
    replace (53 + e - 53 - e) with 0 by lia.
    unfold shr, shr_record_of_loc, shr_m.
    destruct (Z.leb_spec e (float_emax - float_prec)); [done|].
    unfold float_emax, float_prec in *. lia.
Qed.

Lemma round_nearest_even_bounds m l :
  m ≤ round_nearest_even m l ≤ m + 1.
Proof.
  destruct l as [|[]]; simpl; try lia. destruct (Z.even m); lia.
Qed.

Lemma shr_1_halves mrs :
  0 < shr_m mrs →
  2 * shr_m (shr_1 mrs) ≤ shr_m mrs ≤ 2 * shr_m (shr_1 mrs) + 1.
Proof.
  destruct mrs as [[|[p|p|]|p] r s]; simpl; lia.
Qed.

Lemma new_location_locates (den num : Z) :
  0 < den → 0 ≤ num < den → locates (new_location den num) num den.
Proof.
  intros Hden Hnum. unfold new_location.
  destruct (Z.even den) eqn:Heven.
  - unfold new_location_even.
    destruct (Z.eqb_spec num 0) as [->|Hne]; [done|]. simpl.
    destruct (Z.compare_spec (2 * num) den); simpl; lia.
  - unfold new_location_odd.
    destruct (Z.eqb_spec num 0) as [->|Hne]; [done|]. simpl.
    assert (2 * num ≠ den).
    { intros <-. by rewrite Z.even_mul in Heven. }
    destruct (Z.compare_spec (2 * num + 1) den); simpl; lia.
Qed.

(** Dropping the last bit of the mantissa moves it into the fraction. *)
Lemma shr_1_locates mrs num den :
  0 < shr_m mrs → 0 < den → 0 ≤ num < den →
  locates (loc_of_shr_record mrs) num den →
  ∃ b, 0 ≤ b ≤ 1
       ∧ shr_m mrs = 2 * shr_m (shr_1 mrs) + b
       ∧ locates (loc_of_shr_record (shr_1 mrs)) (b * den + num) (2 * den).
Proof.
  destruct mrs as [[|[p|p|]|p] [] []]; simpl; try lia; intros _ Hden Hnum Hloc.
  all: first [ exists 1; split; [lia|]; split; [lia|]; simpl; lia
             | exists 0; split; [lia|]; split; [lia|]; simpl; lia ].
Qed.

Lemma round_nearest_even_close m l num den :
  0 < den → 0 ≤ num < den → locates l num den →
  - den ≤ 2 * (round_nearest_even m l * den - (m * den + num)) ≤ den.
Proof.
  intros Hden Hnum Hloc. destruct l as [|[]]; simpl in *.
  - lia.
  - destruct (Z.even m); lia.
  - lia.
  - lia.
Qed.

(** Rounding a quotient [q + num/den] of 53 or 54 bits: the result is
    finite; its exponent exceeds the exponent of the quotient by [j], the
    number of bits dropped plus one when the mantissa was rounded up to a
    power of two; and the result is within half of [2^j] of the quotient. *)
Lemma binary_round_aux_quotient (s : bool) (q e : Z) (l : location)
    (num den : Z) :
  2 ^ 52 ≤ q < 2 ^ 54 → -1021 ≤ e ≤ 800 →
  0 < den → 0 ≤ num < den → locates l num den →
  ∃ m j,
    binary_round_aux float_prec float_emax s q e l = S754_finite s m (e + j)
    ∧ 0 ≤ j ≤ 2
    ∧ 2 ^ 52 ≤ Zpos m < 2 ^ 53
    ∧ (j = 2 → Zpos m = 2 ^ 52)
    ∧ (q < 2 ^ 53 → j = 0 ∨ (j = 1 ∧ Zpos m = 2 ^ 52))
    ∧ - (2 ^ j * den) ≤ 2 * (Zpos m * 2 ^ j * den - (q * den + num))
      ≤ 2 ^ j * den.
Proof.
  intros Hq He Hden Hnum Hloc. unfold binary_round_aux.
  destruct (Z.lt_ge_cases q (2 ^ 53)) as [Hlt|Hge].
  - assert (Hshr : shr_fexp float_prec float_emax q e l
                   = (shr_record_of_loc q l, e)).
    { unfold shr_fexp. destruct q as [|p|p]; try lia. unfold Zdigits2.
      rewrite (digits2_pos_unique p 53) by (change (53 - 1) with 52; lia).
      rewrite fexp_normal by lia.
      by replace (53 + e - 53 - e) with 0 by lia. }
    rewrite Hshr, shr_m_of_loc, loc_of_shr_record_of_loc.
    pose proof (round_nearest_even_bounds q l) as Hr.
    pose proof (round_nearest_even_close q l num den Hden Hnum Hloc) as Hclose.
    destruct (renormalize s (round_nearest_even q l) e) as (m & e' & -> & Hcase);
      [lia|lia|].
    destruct Hcase as [(Hr53 & Hm & ->)|(Hr53 & Hm & ->)].
    + exists m, 0. rewrite Z.add_0_r. split; [done|]. split; [lia|].
      split; [lia|]. split; [lia|]. split; [by left|].
      rewrite Hm. change (2 ^ 0) with 1. lia.
    + exists m, 1. split; [done|]. split; [lia|].
      split; [rewrite Hm; done|]. split; [lia|]. split; [by right|].
      rewrite Hr53 in Hclose. rewrite Hm.
      change (2 ^ 1) with 2. change (2 ^ 52 * 2) with (2 ^ 53). lia.
  - set (mrs := shr_1 (shr_record_of_loc q l)).
    assert (Hshr : shr_fexp float_prec float_emax q e l = (mrs, e + 1)).
    { unfold shr_fexp. destruct q as [|p|p]; try lia. unfold Zdigits2.
      rewrite (digits2_pos_unique p 54) by (change (54 - 1) with 53; lia).
      rewrite fexp_normal by lia.
      by replace (54 + e - 53 - e) with 1 by lia. }
    rewrite Hshr.
    destruct (shr_1_locates (shr_record_of_loc q l) num den)
      as (b & Hb & Hhalf & Hloc').
    { rewrite shr_m_of_loc. lia. }
    { done. }
    { done. }
    { by rewrite loc_of_shr_record_of_loc. }
    rewrite shr_m_of_loc in Hhalf. fold mrs in Hhalf, Hloc'.
    assert (Hm : 2 ^ 52 ≤ shr_m mrs < 2 ^ 53).
    { change (2 ^ 52) with 4503599627370496.
      change (2 ^ 53) with 9007199254740992 in *.
      change (2 ^ 54) with 18014398509481984 in *. lia. }
    pose proof (round_nearest_even_bounds (shr_m mrs) (loc_of_shr_record mrs)) as Hr.
    pose proof (round_nearest_even_close (shr_m mrs) (loc_of_shr_record mrs)
                  (b * den + num) (2 * den)) as Hclose.
    destruct (renormalize s (round_nearest_even (shr_m mrs) (loc_of_shr_record mrs))
                (e + 1)) as (m & e' & -> & Hcase); [lia|lia|].
    assert (Hfrac : 0 ≤ b * den + num < 2 * den) by nia.
    specialize (Hclose ltac:(lia) Hfrac Hloc').
    destruct Hcase as [(Hr53 & Hm' & ->)|(Hr53 & Hm' & ->)].
    + exists m, 1. split; [done|]. split; [lia|]. split; [lia|].
      split; [lia|]. split; [lia|].
      rewrite Hm'. change (2 ^ 1) with 2.
      set (r := round_nearest_even (shr_m mrs) (loc_of_shr_record mrs)) in *.
      nia.
    + exists m, 2. split; [f_equal; lia|]. split; [lia|].
      split; [rewrite Hm'; done|]. split; [done|]. split; [lia|].
      rewrite Hr53 in Hclose. rewrite Hm'.
      change (2 ^ 2) with 4. change (2 ^ 52 * 4) with (2 ^ 54).
      change (2 ^ 53) with 9007199254740992 in *.
      change (2 ^ 54) with 18014398509481984 in *. nia.
Qed.

Lemma binary_round_aux_exact (s : bool) (m : positive) (e : Z) :
  Zpos (digits2_pos m) = 53 → -1021 ≤ e ≤ 800 →
  binary_round_aux float_prec float_emax s (Zpos m) e loc_Exact
  = S754_finite s m e.
Proof.
  intros Hd He. pose proof (digits2_pos_bounds m) as Hb. rewrite Hd in Hb.
  change (53 - 1) with 52 in Hb.
  unfold binary_round_aux.
  assert (Hshr : shr_fexp float_prec float_emax (Zpos m) e loc_Exact
                 = (shr_record_of_loc (Zpos m) loc_Exact, e)).
  { unfold shr_fexp, Zdigits2. rewrite Hd, fexp_normal by lia.
    by replace (53 + e - 53 - e) with 0 by lia. }
  rewrite Hshr, shr_m_of_loc, loc_of_shr_record_of_loc.
  change (round_nearest_even (Zpos m) loc_Exact) with (Zpos m).
  destruct (renormalize s (Zpos m) e) as (m' & e' & -> & Hcase); [lia|lia|].
  destruct Hcase as [(_ & Hm & ->)|(Habs & _)]; [|lia].
  by injection Hm as ->.
Qed.

(** [float(n)] is exact for a positive [n] below 2^53: the mantissa is [n]
    shifted to 53 bits. *)
Lemma float_of_int_exact (n : Z) :
  0 < n < 2 ^ 53 →
  ∃ m e,
    float_of_int n = Return (S754_finite false m e)
    ∧ e = Zdigits2 n - 53
    ∧ Zpos m = n * 2 ^ (- e)
    ∧ Zpos (digits2_pos m) = 53.
Proof.
  intros Hn. destruct n as [|p|p]; try lia.
  pose proof (digits2_pos_bounds p) as Hb.
  assert (Hd : 1 ≤ Zpos (digits2_pos p) ≤ 53).
  { split; [lia|].
    destruct (Z.le_gt_cases (Zpos (digits2_pos p)) 53) as [|Hgt]; [done|].
    assert (2 ^ 53 ≤ 2 ^ (Zpos (digits2_pos p) - 1))
      by (apply Z.pow_le_mono_r; lia).
    lia. }
  unfold float_of_int, binary_normalize, binary_round, shl_align.
  simpl Zdigits2.
  rewrite fexp_normal by lia.
  destruct (Z.eq_dec (Zpos (digits2_pos p)) 53) as [Heq|Hne].
  - rewrite Heq. change (53 + 0 - 53 - 0) with 0. cbv iota beta.
    rewrite binary_round_aux_exact by (done || lia).
    exists p, 0. split; [done|]. split; [lia|]. split; [simpl; lia|done].
  - set (k := Z.to_pos (53 - Zpos (digits2_pos p))).
    replace (Zpos (digits2_pos p) + 0 - 53 - 0) with (Zneg k) by (unfold k; lia).
    cbv iota beta.
    assert (Hk : Zpos k = 53 - Zpos (digits2_pos p)) by (unfold k; lia).
    rewrite binary_round_aux_exact.
    + exists (Pos.iter xO p k), (Zpos (digits2_pos p) + 0 - 53).
      split; [done|]. split; [lia|]. split.
      * rewrite iter_xO_value. f_equal. f_equal. lia.
      * rewrite iter_xO_digits. lia.
    + rewrite iter_xO_digits. lia.
    + lia.
Qed.

Lemma div_eucl_div_mod a b : Z.div_eucl a b = (a / b, a mod b).
Proof. unfold Z.div, Z.modulo. by destruct (Z.div_eucl a b). Qed.

(** The quotient of two positive doubles with full mantissas and small
    exponents: the 106-bit dividend divided by the divisor, then rounded. *)
Lemma SFdiv_normal (mx my : positive) (ex ey : Z) :
  Zpos (digits2_pos mx) = 53 → Zpos (digits2_pos my) = 53 →
  -60 ≤ ex ≤ 0 → -60 ≤ ey ≤ 0 →
  SFdiv float_prec float_emax (S754_finite false mx ex) (S754_finite false my ey)
  = binary_round_aux float_prec float_emax false
      (Zpos mx * 2 ^ 53 / Zpos my) (ex - ey - 53)
      (new_location (Zpos my) ((Zpos mx * 2 ^ 53) mod Zpos my)).
Proof.
  intros Hdx Hdy Hex Hey.
  unfold SFdiv, SFdiv_core_binary, Zdigits2. rewrite Hdx, Hdy.
  rewrite fexp_normal by lia.
  replace (Z.min (53 + ex - (53 + ey) - 53) (ex - ey)) with (ex - ey - 53) by lia.
  replace (ex - ey - (ex - ey - 53)) with 53 by lia.
  cbv iota beta. rewrite Z.shiftl_mul_pow2 by lia.
  by rewrite div_eucl_div_mod.
Qed.

Lemma Zdigits2_mono (a b : Z) : 0 < a ≤ b → Zdigits2 a ≤ Zdigits2 b.
Proof.
  intros Hab. destruct a as [|p|p], b as [|q|q]; try lia. simpl.
  pose proof (digits2_pos_bounds p) as Hp.
  pose proof (digits2_pos_bounds q) as Hq.
  destruct (Z.le_gt_cases (Zpos (digits2_pos p)) (Zpos (digits2_pos q)))
    as [|Hgt]; [done|].
  assert (2 ^ Zpos (digits2_pos q) ≤ 2 ^ (Zpos (digits2_pos p) - 1))
    by (apply Z.pow_le_mono_r; lia).
  lia.
Qed.

Lemma Zdigits2_small (n : Z) : 0 < n < 2 ^ 53 → 1 ≤ Zdigits2 n ≤ 53.
Proof.
  intros Hn. destruct n as [|p|p]; try lia. simpl.
  pose proof (digits2_pos_bounds p) as Hb. split; [lia|].
  destruct (Z.le_gt_cases (Zpos (digits2_pos p)) 53) as [|Hgt]; [done|].
  assert (2 ^ 53 ≤ 2 ^ (Zpos (digits2_pos p) - 1))
    by (apply Z.pow_le_mono_r; lia).
  lia.
Qed.

Lemma SFleb_below_one (m : positive) (e : Z) :
  e < -52 ∨ (e = -52 ∧ Zpos m = 2 ^ 52) →
  SFleb float_zero (S754_finite false m e) = true
  ∧ SFleb (S754_finite false m e) float_one = true.
Proof.
  intros H. split; [done|].
  unfold SFleb, float_one, SFcompare.
  destruct H as [Hlt|[-> Hm]].
  - by rewrite (proj2 (Z.compare_lt_iff e (-52)) Hlt).
  - change (2 ^ 52) with 4503599627370496 in Hm. injection Hm as ->. done.
Qed.

(** The quotient of the doubles of two counts [0 <= c <= k], [0 < k < 2^53]
    is a double between 0.0 and 1.0, within half a unit in its last place of
    [c/k]. *)
Lemma float_ratio_in_unit_interval (c k : Z) :
  0 ≤ c ≤ k → 0 < k < 2 ^ 53 →
  ∃ x y,
    float_of_int c = Return x
    ∧ float_of_int k = Return y
    ∧ float_truediv x y = Return (SFdiv float_prec float_emax x y)
    ∧ float_nearest (SFdiv float_prec float_emax x y) c k
    ∧ SFleb float_zero (SFdiv float_prec float_emax x y) = true
    ∧ SFleb (SFdiv float_prec float_emax x y) float_one = true.
Proof.
  intros Hck Hk.
  destruct (float_of_int_exact k Hk) as (my & ey & Hy & Hey & Hmy & Hdy).
  destruct (Z.eq_dec c 0) as [->|Hc0].
  { exists float_zero, (S754_finite false my ey). by rewrite Hy. }
  destruct (float_of_int_exact c) as (mx & ex & Hx & Hex & Hmx & Hdx); [lia|].
  exists (S754_finite false mx ex), (S754_finite false my ey).
  split; [done|]. split; [done|]. split; [done|].
  pose proof (Zdigits2_mono c k ltac:(lia)) as Hmono.
  pose proof (Zdigits2_small k Hk) as Hdk.
  pose proof (Zdigits2_small c ltac:(lia)) as Hdc.
  pose proof (digits2_pos_bounds mx) as Hbx. rewrite Hdx in Hbx.
  pose proof (digits2_pos_bounds my) as Hby. rewrite Hdy in Hby.
  change (53 - 1) with 52 in *.
  rewrite SFdiv_normal by (done || lia).
  set (Q := Zpos mx * 2 ^ 53 / Zpos my).
  set (R := (Zpos mx * 2 ^ 53) mod Zpos my).
  assert (HQR : Zpos mx * 2 ^ 53 = Q * Zpos my + R).
  { unfold Q, R. rewrite (Z.mul_comm _ (Zpos my)). apply Z.div_mod. lia. }
  assert (HR : 0 ≤ R < Zpos my) by (apply Z.mod_pos_bound; lia).
  assert (HQ : 2 ^ 52 ≤ Q < 2 ^ 54).
  { change (2 ^ 52) with 4503599627370496 in *.
    change (2 ^ 53) with 9007199254740992 in *.
    change (2 ^ 54) with 18014398509481984.
    split.
    - apply Z.div_le_lower_bound; lia.
    - apply Z.div_lt_upper_bound; lia. }
  destruct (binary_round_aux_quotient false Q (ex - ey - 53)
              (new_location (Zpos my) R) R (Zpos my))
    as (m & j & -> & Hj & Hmant & Htop & Hsame & Hclose);
    [done|lia|lia|done|by apply new_location_locates|].
  assert (HQlt : ex = ey → c < k → Q < 2 ^ 53).
  { intros Heq Hlt. apply Z.div_lt_upper_bound; [lia|].
    assert (Zpos mx < Zpos my); [|nia].
    rewrite Hmx, Hmy, Heq.
    apply Z.mul_lt_mono_pos_r; [apply Z.pow_pos_nonneg; lia|lia]. }
  assert (Hone : c = k → j = 1 ∧ Zpos m = 2 ^ 52).
  { intros ->. assert (ex = ey) as Heq by lia.
    assert (Zpos mx = Zpos my) as Hmeq by congruence.
    assert (Q = 2 ^ 53 ∧ R = 0) as [HQ53 HR0].
    { rewrite Hmeq in HQR.
      assert (HR0 : R = 0).
      { assert (Zpos my * (2 ^ 53 - Q) = R) as Hd by lia.
        destruct (Z.eq_dec (2 ^ 53 - Q) 0) as [|Hnz]; [lia|]. nia. }
      split; [nia|done]. }
    rewrite HQ53, HR0 in Hclose.
    change (2 ^ 52) with 4503599627370496 in *.
    change (2 ^ 53) with 9007199254740992 in *.
    assert (j = 0 ∨ j = 1 ∨ j = 2) as [ -> | [ -> | -> ] ] by lia.
    - change (2 ^ 0) with 1 in Hclose. nia.
    - split; [done|]. change (2 ^ 1) with 2 in Hclose. nia.
    - specialize (Htop eq_refl). change (2 ^ 2) with 4 in Hclose. nia. }
  assert (Hbelow : ex - ey - 53 + j < -52
                   ∨ (ex - ey - 53 + j = -52 ∧ Zpos m = 2 ^ 52)).
  { destruct (Z.eq_dec c k) as [Heq|Hne].
    - destruct (Hone Heq) as [-> Hm]. rewrite Heq in Hex.
      right. split; [lia|done].
    - destruct (Z.eq_dec ex ey) as [Heq|Hne'].
      + destruct (Hsame (HQlt Heq ltac:(lia))) as [->|[-> Hm]].
        * left. lia.
        * right. split; [lia|done].
      + assert (j = 0 ∨ j = 1 ∨ j = 2) as [ -> | [ -> | -> ] ] by lia.
        * left. lia.
        * left. lia.
        * destruct (Z.eq_dec (ex - ey - 53 + 2) (-52)); [|left; lia].
          right. split; [done|]. by apply Htop. }
  split; [|by apply SFleb_below_one].
  simpl. split; [lia|].
  (* from mantissas back to the counts: [my = k * 2^a], [mx = c * 2^b] *)
  set (a := - ey) in *. set (b := - ex) in *.
  assert (Ha : 0 ≤ a ≤ b) by (unfold a, b; lia).
  assert (Hexp : - (ex - ey - 53 + j) = b + 53 - (a + j)) by (unfold a, b; lia).
  rewrite Hexp.
  set (X := 2 ^ (b + 53 - (a + j))).
  assert (HP : 0 < 2 ^ (a + j)) by (apply Z.pow_pos_nonneg; lia).
  assert (Hsplit : 2 ^ b * 2 ^ 53 = 2 ^ (a + j) * X).
  { unfold X. rewrite <- !Z.pow_add_r by lia. f_equal. lia. }
  assert (Hden : 2 ^ j * Zpos my = 2 ^ (a + j) * k).
  { rewrite Hmy, Z.pow_add_r by lia. lia. }
  assert (Hnum : Q * Zpos my + R = 2 ^ (a + j) * (c * X)).
  { rewrite <- HQR, Hmx. lia. }
  rewrite <- (Z.mul_assoc (Zpos m)), Hden, Hnum in Hclose.
  set (P := 2 ^ (a + j)) in *.
  set (D := 2 * (Zpos m * k - c * X)).
  replace (2 * (Zpos m * (P * k) - P * (c * X))) with (P * D) in Hclose
    by (unfold D; ring).
  clearbody P D. clear - Hclose HP.
  split.
  - apply (Z.mul_le_mono_pos_l _ _ P HP). lia.
  - apply (Z.mul_le_mono_pos_l _ _ P HP). lia.
Qed.

(** ** Session reporter: the score *)

Lemma float_of_int_holds (n : Z) :
  0 ≤ n < 2 ^ 53 → ∃ x, float_of_int n = Return x ∧ float_holds x n.
Proof.
  intros Hn. destruct (Z.eq_dec n 0) as [->|Hn0].
  - by exists float_zero.
  - destruct (float_of_int_exact n) as (m & e & Hx & He & Hm & _); [lia|].
    exists (S754_finite false m e). split; [done|]. simpl.
    pose proof (Zdigits2_small n ltac:(lia)). split; [lia|done].
Qed.

Lemma sum_correct_boolean (rows : list score_row) :
  Forall (fun s => correct s = 0 ∨ correct s = 1) rows →
  foldr (fun s acc => correct s + acc) 0 rows
  = Z.of_nat (length (List.filter (fun s => Z.eqb (correct s) 1) rows)).
Proof.
  induction 1 as [|s rows Hs _ IH]; simpl; [done|].
  rewrite IH. destruct Hs as [-> | ->]; simpl; lia.
Qed.

Lemma attempts_boolean session_id db :
  boolean_scores db →
  Forall (fun s => correct s = 0 ∨ correct s = 1) (attempts session_id db).
Proof.
  unfold boolean_scores, attempts. intros H.
  induction H as [|s rows Hs _ IH]; simpl; [done|].
  destruct (in_session session_id s); [by constructor|done].
Qed.

Lemma correct_attempts_le session_id db :
  (length (correct_attempts session_id db) ≤ length (attempts session_id db))%nat.
Proof. unfold correct_attempts. apply List.filter_length_le. Qed.

(** C1. In a store whose recorded outcomes are 0 or 1, for a session with
    [k > 0] attempts of which [c] are correct ([k] below 2^53, so that a
    double holds it exactly), [get_session_score] returns the IEEE-754
    quotient of the doubles [c] and [k]: a double within half a unit in its
    last place of [c/k], between 0.0 and 1.0.  The store is unchanged. *)
Theorem get_session_score_ratio (session_id : Z) (db : database) :
  boolean_scores db →
  0 < Z.of_nat (length (attempts session_id db)) < 2 ^ 53 →
  ∃ x y,
    float_of_int (Z.of_nat (length (correct_attempts session_id db))) = Return x
    ∧ float_holds x (Z.of_nat (length (correct_attempts session_id db)))
    ∧ float_of_int (Z.of_nat (length (attempts session_id db))) = Return y
    ∧ float_holds y (Z.of_nat (length (attempts session_id db)))
    ∧ get_session_score session_id db
      = (db, Return (SFdiv float_prec float_emax x y))
    ∧ float_nearest (SFdiv float_prec float_emax x y)
        (Z.of_nat (length (correct_attempts session_id db)))
        (Z.of_nat (length (attempts session_id db)))
    ∧ SFleb float_zero (SFdiv float_prec float_emax x y) = true
    ∧ SFleb (SFdiv float_prec float_emax x y) float_one = true.
Proof.
  intros Hbool Hk.
  pose proof (correct_attempts_le session_id db) as Hle.
  set (k := Z.of_nat (length (attempts session_id db))) in *.
  set (c := Z.of_nat (length (correct_attempts session_id db))).
  destruct (float_ratio_in_unit_interval c k)
    as (x & y & Hx & Hy & Hdiv & Hnear & H0 & H1);
    [unfold c, k; lia|done|].
  exists x, y.
  destruct (float_of_int_holds c) as (x' & Hx' & Hhx); [unfold c, k in *; lia|].
  destruct (float_of_int_holds k) as (y' & Hy' & Hhy); [lia|].
  assert (x' = x) as -> by congruence. assert (y' = y) as -> by congruence.
  repeat (split; [done|]). split; [|done].
  unfold get_session_score, SQL_SCORE_SESSION, SQL_SESSION_TOTAL.
  fold (attempts session_id db). fold k.
  destruct (attempts session_id db) as [|s rows] eqn:Hrows.
  { unfold k in Hk. simpl in Hk. lia. }
  rewrite <- Hrows.
  rewrite (sum_correct_boolean _ (attempts_boolean session_id db Hbool)).
  fold (correct_attempts session_id db). fold c.
  f_equal. simpl. rewrite Hx. simpl. rewrite Hy. simpl. exact Hdiv.
Qed.

Lemma get_session_score_ratio_witness :
  ∃ x y,
    float_of_int 3 = Return x ∧ float_of_int 5 = Return y
    ∧ get_session_score 1 three_of_five
      = (three_of_five, Return (SFdiv float_prec float_emax x y))
    ∧ SFleb (SFdiv float_prec float_emax x y) float_one = true.
Proof.
  destruct (get_session_score_ratio 1 three_of_five)
    as (x & y & Hx & _ & Hy & _ & Hscore & _ & _ & Hle).
  - by_decision.
  - vm_compute. split; reflexivity.
  - exists x, y. repeat split; assumption.
Defined.

(** Three correct attempts of five yield the double written [0.6]
    (0x3FE3333333333333). *)
Example get_session_score_three_of_five :
  snd (get_session_score 1 three_of_five)
  = Return (S754_finite false 5404319552844595 (-53)).
Proof. vm_compute. reflexivity. Qed.

(** * Further properties *)

(** ** Session manager *)

(** X1. [new_session] never fails: it appends one row, stamped with the
    clock in ISO format under a rowid greater than every rowid in the table,
    leaves [words] and [scores] alone, and returns the rowid of a row of the
    table as it then is. *)
Theorem new_session_appends_fresh_row (now : datetime) (db : database) :
  ∃ id,
    new_session now db
    = ({| words := words db;
          sessions := (sessions db
                       ++ [SessionRow (next_rowid (sessions db)) (isoformat now)])%list;
          scores := scores db |},
       Return (Some id))
    ∧ (∀ s, s ∈ sessions db → ROWID s < next_rowid (sessions db))
    ∧ (id = next_rowid (sessions db) ∨ ∃ s, s ∈ sessions db ∧ ROWID s = id).
Proof.
  rewrite new_session_effect. cbv zeta. simpl.
  rewrite most_recent_snoc.
  destruct (most_recent (sessions db)) as [m|] eqn:Hm; simpl.
  - destruct (String.ltb (date m) (isoformat now)).
    + eexists. split; [reflexivity|]. split; [apply next_rowid_above|by left].
    + eexists. split; [reflexivity|]. split; [apply next_rowid_above|].
      right. exists m. split; [by apply most_recent_in|done].
  - eexists. split; [reflexivity|]. split; [apply next_rowid_above|by left].
Qed.

(** X2. When the clock reads later than the date of every stored session,
    [new_session] returns the rowid of the row it inserted. *)
Theorem new_session_returns_inserted_rowid (now : datetime) (db : database) :
  (∀ s, s ∈ sessions db → String.ltb (date s) (isoformat now) = true) →
  snd (new_session now db) = Return (Some (next_rowid (sessions db))).
Proof. apply new_session_later_clock. Qed.

Lemma new_session_returns_inserted_rowid_witness :
  snd (new_session (Datetime 2024 1 1 12 0 1 0) one_session) = Return (Some 2).
Proof.
  apply (new_session_returns_inserted_rowid (Datetime 2024 1 1 12 0 1 0) one_session).
  intros s Hs. simpl in Hs. apply list_elem_of_singleton in Hs as ->.
  vm_compute. reflexivity.
Defined.

(** X3. When the clock does not read later than the date of some stored
    session, [new_session] still inserts its row but returns the rowid of a
    session that was stored before, never the rowid of the inserted row. *)
Theorem new_session_returns_stored_rowid (now : datetime) (db : database)
    (s : session_row) :
  s ∈ sessions db →
  String.ltb (date s) (isoformat now) = false →
  ∃ old,
    old ∈ sessions db
    ∧ snd (new_session now db) = Return (Some (ROWID old))
    ∧ ROWID old ≠ next_rowid (sessions db).
Proof.
  intros Hs Hstale. rewrite new_session_effect. cbv zeta. simpl.
  rewrite most_recent_snoc.
  destruct (most_recent (sessions db)) as [m|] eqn:Hm.
  - pose proof (most_recent_upper _ _ _ Hm Hs) as Hup. simpl.
    rewrite (ltb_upper_trans _ _ _ Hup Hstale).
    exists m. pose proof (most_recent_in _ _ Hm) as Hin.
    split; [done|]. split; [done|].
    pose proof (next_rowid_above _ _ Hin). lia.
  - destruct (sessions db); [by apply elem_of_nil in Hs|done].
Qed.

Lemma new_session_returns_stored_rowid_witness :
  ∃ old,
    old ∈ sessions one_session
    ∧ snd (new_session (Datetime 2023 12 31 23 59 59 0) one_session)
      = Return (Some (ROWID old))
    ∧ ROWID old ≠ next_rowid (sessions one_session).
Proof.
  apply (new_session_returns_stored_rowid (Datetime 2023 12 31 23 59 59 0)
           one_session (SessionRow 1 "2024-01-01T12:00:00")).
  - simpl. left.
  - vm_compute. reflexivity.
Defined.

Lemma next_rowid_bound (rows : list session_row) (b : Z) :
  0 ≤ b → (∀ s, s ∈ rows → ROWID s ≤ b) → next_rowid rows ≤ b + 1.
Proof.
  unfold next_rowid. intros Hb. induction rows as [|s rows IH]; simpl; intros H.
  - lia.
  - assert (ROWID s ≤ b) by (apply H; left).
    assert (foldr (fun r m => Z.max (ROWID r) m) 0 rows + 1 ≤ b + 1).
    { apply IH. intros x Hx. apply H. by right. }
    lia.
Qed.

Lemma next_rowid_numbered (rows : list session_row) :
  (∀ i s, rows !! i = Some s → ROWID s = Z.of_nat (S i)) →
  next_rowid rows = Z.of_nat (S (length rows)).
Proof.
  intros Hnum.
  assert (Hle : next_rowid rows ≤ Z.of_nat (length rows) + 1).
  { apply next_rowid_bound; [lia|]. intros s Hs.
    apply list_elem_of_lookup in Hs as [i Hi].
    rewrite (Hnum i s Hi). apply lookup_lt_Some in Hi. lia. }
  destruct (decide (rows = [])) as [->|Hne]; [done|].
  destruct (lookup_lt_is_Some_2 rows (pred (length rows))) as [s Hs].
  { destruct rows; [done|simpl; lia]. }
  pose proof (next_rowid_above rows s (list_elem_of_lookup_2 _ _ _ Hs)) as Hgt.
  rewrite (Hnum _ _ Hs) in Hgt.
  assert (length rows ≠ 0)%nat by (destruct rows; [done|simpl; lia]).
  lia.
Qed.

Lemma insert_records_history' reader db db' :
  insert_records reader db = Return db' → sessions db' = sessions db.
Proof. intros H. by apply insert_records_history in H as [? _]. Qed.

(** X4. In every database the program builds, the sessions are numbered in
    the order of their creation: the row at position [i] of [sessions] has
    rowid [i + 1], so no two sessions share an identifier. *)
Theorem built_sessions_numbered (db : database) :
  built db →
  (∀ i s, sessions db !! i = Some s → ROWID s = Z.of_nat (S i))
  ∧ NoDup (ROWID <$> sessions db).
Proof.
  intros Hbuilt.
  assert (Hnum : ∀ i s, sessions db !! i = Some s → ROWID s = Z.of_nat (S i)).
  { induction Hbuilt as [|reader db Hload|now db _ IH|session_id w_id success db _ IH
                        |reader db db' c _ IH Hsync].
    - intros i s H. done.
    - rewrite (insert_records_history' _ _ _ Hload). intros i s H. done.
    - rewrite new_session_effect. cbv zeta. simpl. intros i s Hi.
      apply lookup_app_Some in Hi as [Hi|[Hlen Hi]]; [by apply IH|].
      apply list_lookup_singleton_Some in Hi as [Hi <-]. simpl.
      rewrite (next_rowid_numbered _ IH). f_equal. lia.
    - exact IH.
    - apply sync_records_history in Hsync as [-> _]. exact IH. }
  split; [exact Hnum|].
  apply NoDup_alt. intros i j x Hi Hj.
  apply list_lookup_fmap_Some in Hi as (si & -> & Hsi).
  apply list_lookup_fmap_Some in Hj as (sj & Heq & Hsj).
  rewrite (Hnum _ _ Hsi), (Hnum _ _ Hsj) in Heq. lia.
Qed.

Lemma built_sessions_numbered_witness :
  NoDup (ROWID <$> sessions
           (fst (new_session (Datetime 2024 1 1 12 0 0 0)
                   (fst (new_session (Datetime 2024 1 1 12 0 0 0) created_tables))))).
Proof.
  apply built_sessions_numbered.
  apply built_new_session, built_new_session, built_tables.
Defined.

(** ** Word sampler *)

(** X5. On a catalog with at least one word, [get_random_word] returns the
    id and the text of a stored word, whatever the draws, and changes
    nothing. *)
Theorem get_random_word_returns_stored_word (pick : nat) (db : database) :
  words db ≠ ∅ →
  ∃ i r, words db !! i = Some r
         ∧ get_random_word pick db = (db, Return (i, word r)).
Proof. apply get_random_word_stored. Qed.

Lemma get_random_word_returns_stored_word_witness :
  ∃ i r, words two_words !! i = Some r
         ∧ get_random_word 7 two_words = (two_words, Return (i, word r)).
Proof.
  apply (get_random_word_returns_stored_word 7 two_words).
  intros H. apply (f_equal (fun m => m !! 1)) in H. vm_compute in H. discriminate.
Defined.

(** X6. Every stored word can be drawn: for each word of the catalog some
    draw makes [get_random_word] return it. *)
Theorem get_random_word_reaches_every_word (db : database) (i : Z) (r : word_row) :
  words db !! i = Some r →
  ∃ pick, get_random_word pick db = (db, Return (i, word r)).
Proof.
  intros Hi. apply elem_of_map_to_list in Hi.
  apply list_elem_of_lookup in Hi as [k Hk].
  exists k. unfold get_random_word, SQL_RANDOM_WORD.
  rewrite Nat.mod_small by (by apply lookup_lt_Some in Hk).
  by rewrite Hk.
Qed.

Lemma get_random_word_reaches_every_word_witness :
  ∃ pick, get_random_word pick two_words = (two_words, Return (2, "thank you")).
Proof.
  apply (get_random_word_reaches_every_word two_words 2 (WordRow 1 "thank you")).
  vm_compute. reflexivity.
Defined.

(** ** Score recorder and session reporter together *)

Lemma attempts_score_word session_id other w_id success db :
  attempts other (fst (score_word session_id w_id success db))
  = (attempts other db
     ++ if Z.eqb session_id other
        then [ScoreRow session_id w_id (if success then 1 else 0)] else [])%list.
Proof.
  unfold attempts. simpl. rewrite List.filter_app. simpl. unfold in_session at 2.
  simpl. destruct success; by destruct (Z.eqb session_id other).
Qed.

Lemma get_session_score_attempts session_id db db' :
  attempts session_id db' = attempts session_id db →
  snd (get_session_score session_id db') = snd (get_session_score session_id db).
Proof.
  intros H. unfold get_session_score, SQL_SCORE_SESSION, SQL_SESSION_TOTAL.
  fold (attempts session_id db) (attempts session_id db'). by rewrite H.
Qed.

Lemma SQL_INCORRECT_WORDS_rows_app ws session_id rows rows' :
  SQL_INCORRECT_WORDS_rows ws session_id (rows ++ rows')
  = (SQL_INCORRECT_WORDS_rows ws session_id rows
     ++ SQL_INCORRECT_WORDS_rows ws session_id rows')%list.
Proof.
  induction rows as [|s rows IH]; simpl; [done|]. rewrite IH.
  destruct (in_session session_id s && Z.eqb (correct s) 0); [|done].
  by destruct (ws !! word_id s).
Qed.

(** X7. Recording a score for one session changes neither the score nor the
    missed words of any other session, the two session identifiers being in
    the 64-bit range. *)
Theorem score_word_leaves_other_sessions
    (session_id other w_id : Z) (success : bool) (db : database) :
  int64 session_id →
  int64 other →
  session_id ≠ other →
  snd (get_session_score other (fst (score_word session_id w_id success db)))
  = snd (get_session_score other db)
  ∧ snd (get_incorrect_words other (fst (score_word session_id w_id success db)))
    = snd (get_incorrect_words other db).
Proof.
  intros _ _ Hne. apply Z.eqb_neq in Hne. split.
  - apply get_session_score_attempts.
    by rewrite attempts_score_word, Hne, app_nil_r.
  - rewrite !get_incorrect_words_rows. simpl. f_equal.
    unfold SQL_INCORRECT_WORDS. simpl.
    rewrite SQL_INCORRECT_WORDS_rows_app. simpl.
    unfold in_session. simpl. rewrite Hne. simpl. by rewrite app_nil_r.
Qed.

Lemma score_word_leaves_other_sessions_witness :
  snd (get_session_score 1 (fst (score_word 2 4 false missed_words)))
  = snd (get_session_score 1 missed_words)
  ∧ snd (get_incorrect_words 1 (fst (score_word 2 4 false missed_words)))
    = Return [(4, "apple"); (2, "thank you"); (4, "apple")].
Proof.
  destruct (score_word_leaves_other_sessions 2 1 4 false missed_words)
    as [Hscore Hmissed]; [by_decision|by_decision|lia|].
  split; [exact Hscore|]. rewrite Hmissed. reflexivity.
Defined.

(** X8. After [score_word] the missed words of that session are the ones
    listed before, followed by the word just scored when it was scored
    wrong and is in the catalog; a correct answer, or a wrong answer for a
    word that is not in the catalog, adds nothing. *)
Theorem score_word_then_incorrect_words
    (session_id w_id : Z) (success : bool) (db : database) :
  ∃ before,
    snd (get_incorrect_words session_id db) = Return before
    ∧ snd (get_incorrect_words session_id
             (fst (score_word session_id w_id success db)))
      = Return (before
                ++ if success then []
                   else match words db !! w_id with
                        | Some r => [(w_id, word r)]
                        | None => []
                        end)%list.
Proof.
  exists (SQL_INCORRECT_WORDS session_id db).
  rewrite !get_incorrect_words_rows. simpl. split; [done|]. f_equal.
  unfold SQL_INCORRECT_WORDS. simpl.
  rewrite SQL_INCORRECT_WORDS_rows_app. f_equal. simpl.
  unfold in_session. simpl. rewrite Z.eqb_refl.
  destruct success; simpl; [done|]. by destruct (words db !! w_id).
Qed.

Lemma sum_correct_all (rows : list score_row) (v : Z) :
  (∀ s, s ∈ rows → correct s = v) →
  foldr (fun s acc => correct s + acc) 0 rows = v * Z.of_nat (length rows).
Proof.
  induction rows as [|s rows IH]; intros H; simpl; [lia|].
  rewrite IH by (intros x Hx; apply H; by right).
  rewrite (H s) by left. lia.
Qed.

Lemma float_of_int_div_self (k : Z) :
  0 < k < 2 ^ 53 →
  ∃ y, float_of_int k = Return y
       ∧ float_truediv y y = Return float_one.
Proof.
  intros Hk.
  destruct (float_of_int_exact k Hk) as (my & ey & Hy & Hey & Hmy & Hdy).
  exists (S754_finite false my ey). split; [done|].
  pose proof (Zdigits2_small k Hk) as Hdk.
  unfold float_truediv. f_equal.
  rewrite SFdiv_normal by (done || lia).
  rewrite (Z.mul_comm (Zpos my)), Z.div_mul, Z.mod_mul by lia.
  replace (ey - ey - 53) with (-53) by lia.
  assert (Hloc : new_location (Zpos my) 0 = loc_Exact).
  { unfold new_location. by destruct (Z.even (Zpos my)). }
  rewrite Hloc. by vm_compute.
Qed.

(** X9. A session whose attempts are all marked correct scores exactly
    1.0. *)
Theorem get_session_score_all_correct (session_id : Z) (db : database) :
  0 < Z.of_nat (length (attempts session_id db)) < 2 ^ 53 →
  (∀ s, s ∈ attempts session_id db → correct s = 1) →
  get_session_score session_id db = (db, Return float_one).
Proof.
  intros Hk Hall.
  unfold get_session_score, SQL_SCORE_SESSION, SQL_SESSION_TOTAL.
  fold (attempts session_id db).
  destruct (attempts session_id db) as [|s rows] eqn:Hrows.
  { simpl in Hk. lia. }
  rewrite <- Hrows in *. rewrite (sum_correct_all _ 1 Hall), Z.mul_1_l.
  destruct (float_of_int_div_self _ Hk) as (y & Hy & Hdiv).
  f_equal. simpl. rewrite Hy. simpl. exact Hdiv.
Qed.

Lemma get_session_score_all_correct_witness :
  get_session_score 1 all_correct = (all_correct, Return float_one).
Proof.
  apply (get_session_score_all_correct 1 all_correct).
  - vm_compute. split; reflexivity.
  - intros s Hs. simpl in Hs.
    repeat (apply elem_of_cons in Hs as [->|Hs]; [reflexivity|]).
    by apply elem_of_nil in Hs.
Defined.

(** X10. A session with attempts of which none is marked correct scores
    exactly 0.0. *)
Theorem get_session_score_none_correct (session_id : Z) (db : database) :
  0 < Z.of_nat (length (attempts session_id db)) < 2 ^ 53 →
  (∀ s, s ∈ attempts session_id db → correct s = 0) →
  get_session_score session_id db = (db, Return float_zero).
Proof.
  intros Hk Hall.
  unfold get_session_score, SQL_SCORE_SESSION, SQL_SESSION_TOTAL.
  fold (attempts session_id db).
  destruct (attempts session_id db) as [|s rows] eqn:Hrows.
  { simpl in Hk. lia. }
  rewrite <- Hrows in *. rewrite (sum_correct_all _ 0 Hall), Z.mul_0_l.
  destruct (float_of_int_exact _ Hk) as (my & ey & Hy & _).
  f_equal. simpl. by rewrite Hy.
Qed.

Lemma get_session_score_none_correct_witness :
  get_session_score 2 all_correct = (all_correct, Return float_zero).
Proof.
  apply (get_session_score_none_correct 2 all_correct).
  - vm_compute. split; reflexivity.
  - intros s Hs. simpl in Hs.
    repeat (apply elem_of_cons in Hs as [->|Hs]; [reflexivity|]).
    by apply elem_of_nil in Hs.
Defined.

Lemma incorrect_rows_count ws session_id w_id rows :
  length (List.filter (fun row => Z.eqb (fst row) w_id)
            (SQL_INCORRECT_WORDS_rows ws session_id rows))
  = match ws !! w_id with
    | Some _ =>
        length (List.filter (fun s => in_session session_id s
                                      && Z.eqb (correct s) 0
                                      && Z.eqb (word_id s) w_id) rows)
    | None => 0%nat
    end.
Proof.
  induction rows as [|s rows IH]; simpl.
  - by destruct (ws !! w_id).
  - destruct (in_session session_id s && Z.eqb (correct s) 0) eqn:Hsel; simpl;
      [|exact IH].
    destruct (Z.eqb_spec (word_id s) w_id) as [Heq|Hne].
    + rewrite Heq. destruct (ws !! w_id) eqn:Hw; simpl.
      * rewrite Z.eqb_refl. simpl. by rewrite IH.
      * by rewrite IH.
    + destruct (ws !! word_id s) eqn:Hw; simpl; [|exact IH].
      apply Z.eqb_neq in Hne. rewrite Hne. exact IH.
Qed.

(** X11. On a store whose recorded identifiers are integers, for a session
    identifier in the 64-bit range: [get_incorrect_words] lists a word of
    the catalog once for every attempt of the session that was marked wrong
    for it, and never lists a word id that is not in the catalog, however
    often it was missed. *)
Theorem get_incorrect_words_counts_attempts
    (session_id w_id : Z) (db : database) :
  int64 session_id →
  int64_scores db →
  ∃ rows,
    get_incorrect_words session_id db = (db, Return rows)
    ∧ length (List.filter (fun row => Z.eqb (fst row) w_id) rows)
      = match words db !! w_id with
        | Some _ => length (missed_attempts session_id w_id db)
        | None => 0%nat
        end.
Proof.
  intros _ _.
  exists (SQL_INCORRECT_WORDS session_id db).
  split; [apply get_incorrect_words_rows|]. apply incorrect_rows_count.
Qed.

(** Session 1 of [missed_words] missed word 4 twice. *)
Lemma get_incorrect_words_counts_attempts_witness :
  ∃ rows,
    get_incorrect_words 1 missed_words = (missed_words, Return rows)
    ∧ length (List.filter (fun row => Z.eqb (fst row) 4) rows) = 2%nat.
Proof.
  destruct (get_incorrect_words_counts_attempts 1 4 missed_words)
    as (rows & Hrows & Hcount); [by_decision|by_decision|].
  exists rows. split; [exact Hrows|]. rewrite Hcount. reflexivity.
Defined.

(** X12. In every database the program builds, every recorded outcome is 0
    or 1. *)
Theorem built_scores_are_boolean (db : database) (s : score_row) :
  built db → s ∈ scores db → correct s = 0 ∨ correct s = 1.
Proof.
  intros Hbuilt Hs. apply built_boolean_scores in Hbuilt.
  unfold boolean_scores in Hbuilt. rewrite Forall_forall in Hbuilt.
  by apply Hbuilt.
Qed.

Lemma built_scores_are_boolean_witness :
  correct (ScoreRow 1 7 1) = 0 ∨ correct (ScoreRow 1 7 1) = 1.
Proof.
  apply (built_scores_are_boolean
           (fst (score_word 1 7 true
                   (fst (new_session (Datetime 2024 1 1 12 0 0 0) created_tables))))).
  - apply built_score_word, built_new_session, built_tables.
  - vm_compute. left.
Defined.

(** ** Word store loader: full replace *)

(** X13. Whatever the source and whatever the store held, after
    [erase_and_recreate_tables] the database file has empty [sessions] and
    [scores]; when the load fails it has an empty [words] as well; no other
    file is touched. *)
Theorem erase_and_recreate_tables_forgets_history
    (reader : list csv_record) (fs : filesystem) :
  ∃ db,
    fst (erase_and_recreate_tables reader fs) !! DB_FILE_NAME = Some db
    ∧ sessions db = [] ∧ scores db = []
    ∧ (snd (erase_and_recreate_tables reader fs) ≠ Return tt → words db = ∅)
    ∧ (∀ path, path ≠ DB_FILE_NAME →
         fst (erase_and_recreate_tables reader fs) !! path = fs !! path).
Proof.
  unfold erase_and_recreate_tables.
  destruct (insert_records reader created_tables) as [db|e] eqn:H; simpl.
  - exists db. rewrite lookup_insert_eq. split; [done|].
    apply insert_records_history in H as [-> ->].
    repeat split; try done. intros path Hne. by rewrite lookup_insert_ne.
  - exists created_tables. rewrite lookup_insert_eq.
    repeat split; try done. intros path Hne. by rewrite lookup_insert_ne.
Qed.

(** X14. When the records of the source are storable (numbers and levels
    in the 64-bit range, texts without NUL), the numbers are pairwise
    distinct and no text holds a double quote, the load completes and the
    catalog is exactly the source: each number with its level and its
    text. *)
Theorem erase_and_recreate_tables_loads_source
    (reader : list csv_record) (fs : filesystem) :
  Forall storable reader →
  NoDup (Number <$> reader) →
  Forall (fun r => sql_plain (Word r) = true) reader →
  erase_and_recreate_tables reader fs
  = (<[DB_FILE_NAME := {| words := catalog_of reader;
                          sessions := []; scores := [] |}]> fs,
     Return tt)
  ∧ (∀ record, record ∈ reader →
       catalog_of reader !! Number record
       = Some (WordRow (Level record) (Word record))).
Proof.
  intros _ Hnd Hp. split; [by apply erase_and_recreate_tables_plain|].
  intros record Hin. unfold catalog_of.
  apply elem_of_list_to_map_1.
  - by rewrite <- list_fmap_compose.
  - apply list_elem_of_fmap. by exists record.
Qed.

Lemma erase_and_recreate_tables_loads_source_witness :
  erase_and_recreate_tables three_words store_with_old_word
  = (<[DB_FILE_NAME := {| words := catalog_of three_words;
                          sessions := []; scores := [] |}]> store_with_old_word,
     Return tt)
  ∧ catalog_of three_words !! 7 = Some (WordRow 2 "NEW").
Proof.
  destruct (erase_and_recreate_tables_loads_source three_words
              store_with_old_word) as [Hrun Hstored];
    [by_decision|by_decision|by_decision|].
  split; [exact Hrun|].
  apply (Hstored (CsvRecord 7 2 "NEW")). right. right. left.
Defined.




Lemma catalog_of_lookup reader record :
  NoDup (Number <$> reader) → record ∈ reader →
  catalog_of reader !! Number record = Some (WordRow (Level record) (Word record)).
Proof.
  intros Hnd Hin. unfold catalog_of. apply elem_of_list_to_map_1.
  - by rewrite <- list_fmap_compose.
  - apply list_elem_of_fmap. by exists record.
Qed.

(** X16. Over a source of storable records with pairwise distinct numbers
    and texts free of double quotes, a synchronization that follows the
    load of the same source finds every record in place: it reports all
    records checked, none updated, none added, and leaves the store as the
    load left it. *)
Theorem update_word_list_after_load
    (reader : list csv_record) (fs : filesystem) :
  Forall storable reader →
  NoDup (Number <$> reader) →
  Forall (fun r => sql_plain (Word r) = true) reader →
  update_word_list reader (fst (erase_and_recreate_tables reader fs))
  = (fst (erase_and_recreate_tables reader fs),
     Return (Counters (Z.of_nat (length reader)) 0 0)).
Proof.
  intros _ Hnd Hp. rewrite (erase_and_recreate_tables_plain _ _ Hnd Hp). simpl.
  unfold update_word_list. rewrite lookup_insert_eq.
  rewrite sync_records_fixed.
  - simpl. by rewrite insert_insert_eq.
  - intros record Hin. simpl. eexists. split; [by apply catalog_of_lookup|done].
Qed.

Lemma update_word_list_after_load_witness :
  update_word_list three_words
    (fst (erase_and_recreate_tables three_words store_with_old_word))
  = (fst (erase_and_recreate_tables three_words store_with_old_word),
     Return (Counters 3 0 0)).
Proof.
  apply (update_word_list_after_load three_words store_with_old_word);
    by_decision.
Defined.

(** X17. After the load of a source that is not empty, whose records are
    storable, whose numbers are pairwise distinct and whose texts hold no
    double quote, a model opened on any file name draws the number and the
    text of a record of the source. *)
Theorem get_random_word_after_load
    (reader : list csv_record) (fs : filesystem) (db_file : string) (pick : nat) :
  reader ≠ [] →
  Forall storable reader →
  NoDup (Number <$> reader) →
  Forall (fun r => sql_plain (Word r) = true) reader →
  ∃ record,
    record ∈ reader
    ∧ snd (call (__init__ db_file) (get_random_word pick)
             (fst (erase_and_recreate_tables reader fs)))
      = Return (Number record, Word record).
Proof.
  intros Hne _ Hnd Hp. rewrite (erase_and_recreate_tables_plain _ _ Hnd Hp).
  unfold call. simpl. rewrite lookup_insert_eq.
  set (db := {| words := catalog_of reader; sessions := []; scores := [] |}).
  destruct (get_random_word_stored pick db) as (i & r & Hi & Hget).
  { simpl. intros Hempty. destruct reader as [|record rest]; [done|].
    pose proof (catalog_of_lookup (record :: rest) record Hnd ltac:(left)) as Hl.
    rewrite Hempty in Hl. done. }
  rewrite Hget. simpl.
  simpl in Hi. unfold catalog_of in Hi. apply elem_of_list_to_map_2 in Hi.
  apply list_elem_of_fmap in Hi as (record & Heq & Hin).
  injection Heq as -> ->. by exists record.
Qed.

Lemma get_random_word_after_load_witness :
  ∃ record,
    record ∈ three_words
    ∧ snd (call (__init__ "practice.db") (get_random_word 4)
             (fst (erase_and_recreate_tables three_words store_with_old_word)))
      = Return (Number record, Word record).
Proof.
  apply (get_random_word_after_load three_words store_with_old_word
           "practice.db" 4); [discriminate|by_decision..].
Defined.

(** ** Word store loader: synchronization *)

(** One turn of the loop, whatever the text: a stored word is skipped or
    rewritten under its number with its level, a missing word is inserted
    under its number with the level of the record. *)
Lemma sync_record_cases record db c db' c' :
  sync_record record (db, c) = Return (db', c') →
  sessions db' = sessions db ∧ scores db' = scores db
  ∧ match words db !! Number record with
    | Some r =>
        (db' = db ∧ c' = count_checked c)
        ∨ (c' = count_updated c
           ∧ ∃ t, words db' = <[Number record := WordRow (level r) t]> (words db))
    | None =>
        c' = count_added c
        ∧ ∃ t, words db'
               = <[Number record := WordRow (Level record) t]> (words db)
    end.
Proof.
  unfold sync_record, sql_find_word_by_id, sql_update_word, SQL_INSERT_WORD.
  destruct (words db !! Number record) as [r|] eqn:Hr; simpl.
  - destruct (negb _).
    + destruct (dq_scan (Word record)); simpl; [|done..].
      intros [= <- <-]. simpl. repeat split; try done. right. split; [done|].
      by eexists.
    + intros [= <- <-]. repeat split; try done. by left.
  - destruct (dq_literal (Word record)); simpl; [|done].
    intros [= <- <-]. simpl. repeat split; try done. by eexists.
Qed.

Lemma sync_record_counts record db c db' c' :
  sync_record record (db, c) = Return (db', c') →
  checked c' = checked c + 1
  ∧ updated c ≤ updated c'
  ∧ added c' - added c
    = Z.of_nat (size (words db')) - Z.of_nat (size (words db))
  ∧ (updated c' - updated c) + (added c' - added c) ≤ 1
  ∧ (∀ n r, words db !! n = Some r →
       ∃ r', words db' !! n = Some r' ∧ level r' = level r).
Proof.
  intros H. apply sync_record_cases in H as (_ & _ & H).
  destruct (words db !! Number record) as [r|] eqn:Hr.
  - destruct H as [[-> ->]|[-> [t Hw]]]; simpl.
    + repeat split; try lia. intros n r0 Hn. by exists r0.
    + rewrite Hw. repeat split; try lia.
      * rewrite map_size_insert_Some by eauto. lia.
      * intros n r0 Hn. destruct (decide (n = Number record)) as [->|Hne].
        -- rewrite lookup_insert_eq. eexists. split; [done|]. simpl. congruence.
        -- rewrite lookup_insert_ne by done. by exists r0.
  - destruct H as [-> [t Hw]]. simpl. rewrite Hw. repeat split; try lia.
    + rewrite map_size_insert_None by done. lia.
    + intros n r0 Hn. destruct (decide (n = Number record)) as [->|Hne].
      * congruence.
      * rewrite lookup_insert_ne by done. by exists r0.
Qed.

Lemma sync_records_counts reader db c db' c' :
  sync_records reader (db, c) = Return (db', c') →
  checked c' = checked c + Z.of_nat (length reader)
  ∧ updated c ≤ updated c'
  ∧ added c' - added c
    = Z.of_nat (size (words db')) - Z.of_nat (size (words db))
  ∧ (updated c' - updated c) + (added c' - added c) ≤ Z.of_nat (length reader)
  ∧ (∀ n r, words db !! n = Some r →
       ∃ r', words db' !! n = Some r' ∧ level r' = level r).
Proof.
  revert db c. induction reader as [|record rest IH]; intros db c.
  - intros [= <- <-]. simpl. repeat split; try lia. intros n r Hn. by exists r.
  - rewrite sync_records_cons.
    destruct (sync_record record (db, c)) as [[db1 c1]|] eqn:H1; simpl; [|done].
    intros H2. apply sync_record_counts in H1 as (Hc1 & Hu1 & Ha1 & Hs1 & Hl1).
    apply IH in H2 as (Hc2 & Hu2 & Ha2 & Hs2 & Hl2).
    repeat split; try lia.
    intros n r Hn. destruct (Hl1 n r Hn) as (r1 & Hn1 & Hlev1).
    destruct (Hl2 n r1 Hn1) as (r2 & Hn2 & Hlev2).
    exists r2. split; [done|congruence].
Qed.

Lemma update_word_list_run reader fs fs' c db :
  fs !! DB_FILE_NAME = Some db →
  update_word_list reader fs = (fs', Return c) →
  ∃ db', sync_records reader (db, Counters 0 0 0) = Return (db', c)
         ∧ fs' = <[DB_FILE_NAME := db']> fs.
Proof.
  intros Hdb. unfold update_word_list. rewrite Hdb.
  destruct (sync_records reader (db, Counters 0 0 0)) as [[db1 c1]|] eqn:H1;
    [|done].
  intros [= <- <-]. by exists db1.
Qed.

Lemma sync_record_verbatim_words record db c db' c' :
  verbatim (Word record) = true →
  sync_record record (db, c) = Return (db', c') →
  words db' !! Number record
  = Some (WordRow match words db !! Number record with
                  | Some r => level r
                  | None => Level record
                  end (Word record))
  ∧ (∀ n, n ≠ Number record → words db' !! n = words db !! n).
Proof.
  intros Hv. rewrite (sync_record_verbatim _ _ _ Hv).
  destruct (words db !! Number record) as [r|] eqn:Hr.
  - destruct (String.eqb (word r) (Word record)) eqn:Heq; intros [= <- <-].
    + apply String.eqb_eq in Heq. rewrite Hr, <- Heq. by destruct r.
    + simpl. rewrite lookup_insert_eq. split; [done|].
      intros n Hn. by rewrite lookup_insert_ne.
  - intros [= <- <-]. simpl. rewrite lookup_insert_eq. split; [done|].
    intros n Hn. by rewrite lookup_insert_ne.
Qed.

(** X18. After a completed synchronization over a source of storable records
    whose numbers are pairwise distinct and whose texts are verbatim, every
    record of the source is stored under its number with its text; its
    level is the level stored before for that number, or the level of the
    record when the number was new; words whose number is not in the source
    are as before. *)
Theorem update_word_list_stores_source
    (reader : list csv_record) (fs fs' : filesystem) (c : counters)
    (db : database) :
  Forall storable reader →
  NoDup (Number <$> reader) →
  Forall (fun r => verbatim (Word r) = true) reader →
  fs !! DB_FILE_NAME = Some db →
  update_word_list reader fs = (fs', Return c) →
  ∃ db',
    fs' !! DB_FILE_NAME = Some db'
    ∧ (∀ record, record ∈ reader →
         words db' !! Number record
         = Some (WordRow match words db !! Number record with
                         | Some r => level r
                         | None => Level record
                         end (Word record)))
    ∧ (∀ n, n ∉ Number <$> reader → words db' !! n = words db !! n).
Proof.
  intros _ Hnd Hv Hdb Hrun.
  destruct (update_word_list_run _ _ _ _ _ Hdb Hrun) as (db' & Hsync & ->).
  exists db'. rewrite lookup_insert_eq. split; [done|]. split.
  - clear Hdb Hrun. revert db Hsync Hnd. generalize (Counters 0 0 0).
    induction Hv as [|record rest Hrec Hrest IH]; intros c0 db Hsync Hnd.
    + intros x Hx. by apply elem_of_nil in Hx.
    + rewrite fmap_cons in Hnd. apply NoDup_cons in Hnd as [Hfresh Hnd].
      rewrite sync_records_cons in Hsync.
      destruct (sync_record record (db, c0)) as [[db1 c1]|] eqn:H1; [|done].
      simpl in Hsync.
      destruct (sync_record_verbatim_words _ _ _ _ _ Hrec H1) as [Hhere Hothers].
      intros x [->|Hx]%elem_of_cons.
      * by rewrite (sync_records_frame _ _ _ _ _ Hrest Hsync _ Hfresh).
      * rewrite (IH _ _ Hsync Hnd x Hx).
        assert (Hne : Number x ≠ Number record).
        { intros Heq. apply Hfresh. rewrite <- Heq.
          apply list_elem_of_fmap. by exists x. }
        by rewrite (Hothers _ Hne).
  - intros n Hn. by apply (sync_records_frame _ _ _ _ _ Hv Hsync).
Qed.

Lemma update_word_list_stores_source_witness :
  ∃ db',
    fst (update_word_list three_words store_with_old_word) !! DB_FILE_NAME
    = Some db'
    ∧ words db' !! 7 = Some (WordRow 5 "NEW").
Proof.
  destruct (update_word_list_stores_source three_words store_with_old_word
              (fst (update_word_list three_words store_with_old_word))
              (Counters 3 1 2)
              {| words := {[ 7 := WordRow 5 "OLD" ]};
                 sessions := [SessionRow 1 "2024-01-01T12:00:00"];
                 scores := [ScoreRow 1 7 0] |})
    as (db' & Hdb' & Hstored & _).
  - by_decision.
  - by_decision.
  - by_decision.
  - vm_compute. reflexivity.
  - vm_compute. reflexivity.
  - exists db'. split; [exact Hdb'|].
    apply (Hstored (CsvRecord 7 2 "NEW")). right. right. left.
Defined.

(** X19. A completed synchronization over storable records whose texts stay
    inside their quotes reports every record of the source as checked; the
    words it reports as added are exactly the growth of the catalog; updates
    and additions together never exceed the records checked.  The texts may
    name columns and hold pairs of quotes. *)
Theorem update_word_list_counters
    (reader : list csv_record) (fs fs' : filesystem) (c : counters)
    (db : database) :
  Forall storable reader →
  Forall (fun r => stays_quoted (Word r) = true) reader →
  fs !! DB_FILE_NAME = Some db →
  update_word_list reader fs = (fs', Return c) →
  ∃ db',
    fs' !! DB_FILE_NAME = Some db'
    ∧ checked c = Z.of_nat (length reader)
    ∧ added c = Z.of_nat (size (words db')) - Z.of_nat (size (words db))
    ∧ 0 ≤ updated c
    ∧ updated c + added c ≤ checked c.
Proof.
  intros _ _ Hdb Hrun.
  destruct (update_word_list_run _ _ _ _ _ Hdb Hrun) as (db' & Hsync & ->).
  exists db'. rewrite lookup_insert_eq. split; [done|].
  apply sync_records_counts in Hsync as (Hc & Hu & Ha & Hs & _).
  simpl in *. repeat split; lia.
Qed.

Lemma update_word_list_counters_witness :
  ∃ db',
    fst (update_word_list three_words store_with_old_word) !! DB_FILE_NAME
    = Some db'
    ∧ checked (Counters 3 1 2) = 3
    ∧ added (Counters 3 1 2) = Z.of_nat (size (words db')) - 1.
Proof.
  destruct (update_word_list_counters three_words store_with_old_word
              (fst (update_word_list three_words store_with_old_word))
              (Counters 3 1 2)
              {| words := {[ 7 := WordRow 5 "OLD" ]};
                 sessions := [SessionRow 1 "2024-01-01T12:00:00"];
                 scores := [ScoreRow 1 7 0] |})
    as (db' & Hdb' & Hchecked & Hadded & _).
  - by_decision.
  - by_decision.
  - vm_compute. reflexivity.
  - vm_compute. reflexivity.
  - exists db'. split; [exact Hdb'|]. split; [exact Hchecked|exact Hadded].
Defined.

(** X20. A completed synchronization over storable records whose texts stay
    inside their quotes removes no word and changes no level: every word
    stored before is stored after under the same number with the same
    level, also when a text names a column or holds pairs of quotes. *)
Theorem update_word_list_keeps_words_and_levels
    (reader : list csv_record) (fs fs' : filesystem) (c : counters)
    (db : database) (n : Z) (r : word_row) :
  Forall storable reader →
  Forall (fun r => stays_quoted (Word r) = true) reader →
  fs !! DB_FILE_NAME = Some db →
  update_word_list reader fs = (fs', Return c) →
  words db !! n = Some r →
  ∃ db' r',
    fs' !! DB_FILE_NAME = Some db'
    ∧ words db' !! n = Some r' ∧ level r' = level r.
Proof.
  intros _ _ Hdb Hrun Hn.
  destruct (update_word_list_run _ _ _ _ _ Hdb Hrun) as (db' & Hsync & ->).
  apply sync_records_counts in Hsync as (_ & _ & _ & _ & Hkeep).
  destruct (Hkeep n r Hn) as (r' & Hn' & Hlev).
  exists db', r'. by rewrite lookup_insert_eq.
Qed.

Lemma update_word_list_keeps_words_and_levels_witness :
  ∃ db' r',
    fst (update_word_list [CsvRecord 7 2 "Level"] store_with_old_word)
      !! DB_FILE_NAME = Some db'
    ∧ words db' !! 7 = Some r' ∧ level r' = 5.
Proof.
  apply (update_word_list_keeps_words_and_levels [CsvRecord 7 2 "Level"]
           store_with_old_word _ (Counters 1 1 0)
           {| words := {[ 7 := WordRow 5 "OLD" ]};
              sessions := [SessionRow 1 "2024-01-01T12:00:00"];
              scores := [ScoreRow 1 7 0] |} 7 (WordRow 5 "OLD"));
    [by_decision|by_decision|vm_compute; reflexivity..].
Defined.

(** X21. Synchronization touches nothing but the catalog: after a completed
    run the sessions and the scores are the ones stored before, and so is
    every other file. *)
Theorem update_word_list_keeps_history
    (reader : list csv_record) (fs fs' : filesystem) (c : counters)
    (db : database) :
  fs !! DB_FILE_NAME = Some db →
  update_word_list reader fs = (fs', Return c) →
  (∃ db', fs' !! DB_FILE_NAME = Some db'
          ∧ sessions db' = sessions db ∧ scores db' = scores db)
  ∧ (∀ path, path ≠ DB_FILE_NAME → fs' !! path = fs !! path).
Proof.
  intros Hdb Hrun.
  destruct (update_word_list_run _ _ _ _ _ Hdb Hrun) as (db' & Hsync & ->).
  split.
  - exists db'. rewrite lookup_insert_eq. split; [done|].
    by apply (sync_records_history _ _ _ _ _ Hsync).
  - intros path Hne. by rewrite lookup_insert_ne.
Qed.

Lemma update_word_list_keeps_history_witness :
  ∃ db',
    fst (update_word_list three_words store_with_old_word) !! DB_FILE_NAME
    = Some db'
    ∧ sessions db' = [SessionRow 1 "2024-01-01T12:00:00"]
    ∧ scores db' = [ScoreRow 1 7 0].
Proof.
  apply (update_word_list_keeps_history three_words store_with_old_word
           (fst (update_word_list three_words store_with_old_word))
           (Counters 3 1 2)
           {| words := {[ 7 := WordRow 5 "OLD" ]};
              sessions := [SessionRow 1 "2024-01-01T12:00:00"];
              scores := [ScoreRow 1 7 0] |});
    vm_compute; reflexivity.
Defined.

(** ** The drill *)

Lemma call_on_database {A : Type} db_file (body : method A) fs db :
  fs !! DB_FILE_NAME = Some db →
  call (__init__ db_file) body fs
  = (<[DB_FILE_NAME := fst (body db)]> fs, snd (body db)).
Proof.
  intros Hdb. unfold call. simpl. rewrite Hdb. by destruct (body db).
Qed.

Lemma with_scores_nil db : with_scores db [] = db.
Proof. unfold with_scores. rewrite app_nil_r. by destruct db. Qed.

Lemma with_scores_cons db s rows :
  with_scores (with_scores db [s]) rows = with_scores db (s :: rows).
Proof. unfold with_scores. simpl. by rewrite <- app_assoc. Qed.

(** One question answered: the word asked is a stored word, and its outcome
    is recorded under the session of the drill. *)
Lemma ask_words_answered db_file id draws a n w db line rest :
  files w !! DB_FILE_NAME = Some db →
  words db ≠ ∅ →
  stdin w = line :: rest →
  line ≠ EmptyString →
  ∃ i r,
    words db !! i = Some r
    ∧ ask_words (__init__ db_file) (Some id) draws a (S n) w
      = ask_words (__init__ db_file) (Some id) draws (S a) n
          {| files := <[DB_FILE_NAME :=
                          with_scores db [ScoreRow id i (outcome_of_answer line)]]>
                        (files w);
             stdin := rest;
             stdout := (stdout w ++ [Question (word r)])%list |}.
Proof.
  intros Hdb Hne Hin Hline.
  destruct (get_random_word_stored (draws a) db Hne) as (i & r & Hi & Hget).
  exists i, r. split; [done|].
  cbn [ask_words].
  rewrite (call_on_database _ _ _ _ Hdb), Hget. simpl fst. simpl snd.
  rewrite Hin. cbn [readline].
  destruct line as [|ch line']; [done|]. cbn [answered_yes].
  unfold call_for.
  rewrite (call_on_database _ _ _ db) by apply lookup_insert_eq.
  unfold score_word. simpl fst. simpl snd. cbv iota beta.
  rewrite !insert_insert_eq. unfold outcome_of_answer, with_scores.
  cbn [answered_yes]. by destruct (Ascii.eqb (lower_ascii ch) "y").
Qed.

Lemma ask_words_all_answered db_file id draws n : ∀ a w db,
  files w !! DB_FILE_NAME = Some db →
  words db ≠ ∅ →
  (n ≤ length (stdin w))%nat →
  Forall (fun line => line ≠ EmptyString) (take n (stdin w)) →
  ∃ rows questions,
    ask_words (__init__ db_file) (Some id) draws a n w
    = ({| files := <[DB_FILE_NAME := with_scores db rows]> (files w);
          stdin := drop n (stdin w);
          stdout := (stdout w ++ questions)%list |}, None)
    ∧ length rows = n ∧ length questions = n
    ∧ Forall (fun s => session_rowid s = id ∧ is_Some (words db !! word_id s)) rows
    ∧ correct <$> rows = outcome_of_answer <$> take n (stdin w).
Proof.
  induction n as [|n IH]; intros a w db Hdb Hne Hlen Hlines.
  - exists [], []. simpl. rewrite with_scores_nil, drop_0, app_nil_r.
    rewrite (insert_id _ _ _ Hdb). by destruct w.
  - destruct (stdin w) as [|line rest] eqn:Hin; [simpl in Hlen; lia|].
    simpl in Hlen, Hlines. apply Forall_cons in Hlines as [Hline Hlines].
    destruct (ask_words_answered db_file id draws a n w db line rest
                Hdb Hne Hin Hline) as (i & r & Hi & ->).
    edestruct (IH (S a))
      as (rows & questions & -> & Hrows & Hquestions & Hall & Hcorrect).
    { simpl. apply lookup_insert_eq. }
    { exact Hne. }
    { simpl. lia. }
    { exact Hlines. }
    exists (ScoreRow id i (outcome_of_answer line) :: rows),
           (Question (word r) :: questions).
    cbn [files stdin stdout].
    rewrite insert_insert_eq, with_scores_cons, <- app_assoc.
    split; [done|]. split; [simpl; by rewrite Hrows|].
    split; [simpl; by rewrite Hquestions|].
    split; [|by rewrite !fmap_cons, Hcorrect].
    constructor; [simpl; eauto|exact Hall].
Qed.

Lemma ask_words_end_of_input db_file id draws n : ∀ a w db,
  files w !! DB_FILE_NAME = Some db →
  words db ≠ ∅ →
  (length (stdin w) < n)%nat →
  Forall (fun line => line ≠ EmptyString) (stdin w) →
  ∃ rows questions,
    ask_words (__init__ db_file) (Some id) draws a n w
    = ({| files := <[DB_FILE_NAME := with_scores db rows]> (files w);
          stdin := [];
          stdout := (stdout w ++ questions)%list |}, Some IndexError)
    ∧ length rows = length (stdin w)
    ∧ length questions = S (length (stdin w))
    ∧ correct <$> rows = outcome_of_answer <$> stdin w
    ∧ Forall (fun s => session_rowid s = id) rows.
Proof.
  induction n as [|n IH]; intros a w db Hdb Hne Hlen Hlines; [lia|].
  destruct (stdin w) as [|line rest] eqn:Hin.
  - destruct (get_random_word_stored (draws a) db Hne) as (i & r & Hi & Hget).
    exists [], [Question (word r)]. cbn [ask_words].
    rewrite (call_on_database _ _ _ _ Hdb), Hget, Hin. simpl.
    by rewrite with_scores_nil.
  - apply Forall_cons in Hlines as [Hline Hlines].
    destruct (ask_words_answered db_file id draws a n w db line rest
                Hdb Hne Hin Hline) as (i & r & Hi & ->).
    edestruct (IH (S a))
      as (rows & questions & -> & Hrows & Hquestions & Hcorrect & Hall).
    { simpl. apply lookup_insert_eq. }
    { exact Hne. }
    { simpl in *. lia. }
    { exact Hlines. }
    exists (ScoreRow id i (outcome_of_answer line) :: rows),
           (Question (word r) :: questions).
    cbn [files stdin stdout].
    rewrite insert_insert_eq, with_scores_cons, <- app_assoc.
    split; [done|]. split; [simpl; by rewrite Hrows|].
    split; [simpl; by rewrite Hquestions|].
    split; [by rewrite !fmap_cons, Hcorrect|by constructor].
Qed.

Lemma outcome_of_answer_boolean line :
  outcome_of_answer line = 0 ∨ outcome_of_answer line = 1.
Proof.
  unfold outcome_of_answer. destruct (answered_yes line) as [[]|]; auto.
Qed.

Lemma new_session_some now db :
  ∃ id,
    new_session now db
    = ({| words := words db;
          sessions := (sessions db
                       ++ [SessionRow (next_rowid (sessions db)) (isoformat now)])%list;
          scores := scores db |}, Return (Some id)).
Proof.
  rewrite new_session_effect. cbv zeta. simpl. rewrite most_recent_snoc. simpl.
  by eexists.
Qed.

(** The score of a session with attempts, in a store of outcomes 0 and 1:
    a double between 0.0 and 1.0. *)
Lemma get_session_score_value session_id db :
  boolean_scores db →
  0 < Z.of_nat (length (attempts session_id db)) < 2 ^ 53 →
  ∃ q, get_session_score session_id db = (db, Return q)
       ∧ SFleb float_zero q = true ∧ SFleb q float_one = true.
Proof.
  intros Hbool Hk.
  pose proof (correct_attempts_le session_id db) as Hle.
  set (k := Z.of_nat (length (attempts session_id db))) in *.
  set (c := Z.of_nat (length (correct_attempts session_id db))).
  destruct (float_ratio_in_unit_interval c k)
    as (x & y & Hx & Hy & Hdiv & _ & H0 & H1); [unfold c, k; lia|done|].
  exists (SFdiv float_prec float_emax x y). split; [|done].
  unfold get_session_score, SQL_SCORE_SESSION, SQL_SESSION_TOTAL.
  fold (attempts session_id db). fold k.
  destruct (attempts session_id db) as [|s rows] eqn:Hrows.
  { unfold k in Hk. simpl in Hk. lia. }
  rewrite <- Hrows.
  rewrite (sum_correct_boolean _ (attempts_boolean session_id db Hbool)).
  fold (correct_attempts session_id db). fold c.
  f_equal. simpl. rewrite Hx. simpl. rewrite Hy. simpl. exact Hdiv.
Qed.

Lemma attempts_with_scores id db rows :
  Forall (fun s => session_rowid s = id) rows →
  attempts id (with_scores db rows) = (attempts id db ++ rows)%list.
Proof.
  intros Hrows. unfold attempts, with_scores. simpl.
  rewrite List.filter_app. f_equal.
  induction Hrows as [|s rows Hs _ IH]; simpl; [done|].
  unfold in_session at 1. rewrite Hs, Z.eqb_refl. by rewrite IH.
Qed.

(** X22. On a store with tables but an empty catalog the drill fails with
    [TypeError] at the first question, before reading any input; the
    session it started stays in the store and no score is written. *)
Theorem test_on_empty_catalog
    (now : datetime) (draws : nat -> nat) (w : console) (db : database) :
  files w !! DB_FILE_NAME = Some db →
  words db = ∅ →
  ∃ id,
    test now draws w
    = ({| files := <[DB_FILE_NAME := fst (new_session now db)]> (files w);
          stdin := stdin w;
          stdout := (stdout w ++ [SessionCreated (Some id)])%list |},
       Some (ModelFault TypeError))
    ∧ scores (fst (new_session now db)) = scores db
    ∧ length (sessions (fst (new_session now db))) = S (length (sessions db)).
Proof.
  intros Hdb Hempty. destruct (new_session_some now db) as [id Hnew].
  exists id. unfold test.
  rewrite (call_on_database _ _ _ _ Hdb), Hnew. simpl fst. simpl snd. cbv iota.
  split; [|split; [done|simpl; rewrite length_app; simpl; lia]].
  cbn [ask_words files].
  rewrite (call_on_database _ _ _ _ (lookup_insert_eq _ _ _)).
  unfold get_random_word. rewrite SQL_RANDOM_WORD_empty by done.
  simpl. by rewrite insert_insert_eq.
Qed.

Lemma test_on_empty_catalog_witness :
  ∃ id,
    test (Datetime 2024 1 1 12 0 0 0) (fun a => a)
      (Console {[ DB_FILE_NAME := created_tables ]} ["y"] [])
    = ({| files := {[ DB_FILE_NAME := one_session ]};
          stdin := ["y"];
          stdout := [SessionCreated (Some id)] |},
       Some (ModelFault TypeError)).
Proof.
  destruct (test_on_empty_catalog (Datetime 2024 1 1 12 0 0 0) (fun a => a)
              (Console {[ DB_FILE_NAME := created_tables ]} ["y"] [])
              created_tables) as (id & Htest & _).
  - vm_compute. reflexivity.
  - reflexivity.
  - exists id. exact Htest.
Defined.

(** X23. On a store of outcomes 0 and 1 with at least one word, when the
    input holds five lines that are not empty, the drill completes: it
    starts one session, reads exactly five lines, and appends exactly five
    scores, all under the identifier [new_session] returned, each for a word
    of the catalog, marked 1 when its line starts with [y] or [Y] and 0
    otherwise; the catalog is unchanged and the report is printed. *)
Theorem test_records_five_answers
    (now : datetime) (draws : nat -> nat) (w : console) (db : database) :
  files w !! DB_FILE_NAME = Some db →
  boolean_scores db →
  Z.of_nat (length (scores db)) + 5 < 2 ^ 53 →
  words db ≠ ∅ →
  (5 ≤ length (stdin w))%nat →
  Forall (fun line => line ≠ EmptyString) (take 5 (stdin w)) →
  ∃ id rows questions percent missed,
    snd (new_session now db) = Return (Some id)
    ∧ test now draws w
      = ({| files := <[DB_FILE_NAME := with_scores (fst (new_session now db)) rows]>
                       (files w);
            stdin := drop 5 (stdin w);
            stdout := (stdout w ++ [SessionCreated (Some id)] ++ questions
                       ++ [Percent percent; WorkOn] ++ missed)%list |},
         None)
    ∧ length rows = 5%nat ∧ length questions = 5%nat
    ∧ Forall (fun s => session_rowid s = id
                       ∧ is_Some (words db !! word_id s)) rows
    ∧ correct <$> rows = outcome_of_answer <$> take 5 (stdin w).
Proof.
  intros Hdb Hbool Hsize Hne Hlen Hlines.
  destruct (new_session_some now db) as [id Hnew].
  set (db0 := fst (new_session now db)).
  assert (Hwords0 : words db0 = words db) by (unfold db0; by rewrite Hnew).
  assert (Hscores0 : scores db0 = scores db) by (unfold db0; by rewrite Hnew).
  set (w0 := {| files := <[DB_FILE_NAME := db0]> (files w); stdin := stdin w;
                stdout := (stdout w ++ [SessionCreated (Some id)])%list |}).
  destruct (ask_words_all_answered DB_FILE_NAME id draws 5 0%nat w0 db0)
    as (rows & questions & Hask & Hrows & Hquestions & Hall & Hcorrect).
  { apply lookup_insert_eq. }
  { by rewrite Hwords0. }
  { exact Hlen. }
  { exact Hlines. }
  set (db1 := with_scores db0 rows).
  assert (Hbool1 : boolean_scores db1).
  { unfold boolean_scores, db1, with_scores. simpl. rewrite Hscores0.
    apply Forall_app. split; [exact Hbool|].
    apply Forall_forall. intros s Hs.
    apply list_elem_of_lookup in Hs as [i Hi].
    assert (Hc : (correct <$> rows) !! i = Some (correct s))
      by (by apply list_lookup_fmap_Some_2).
    rewrite Hcorrect in Hc. apply list_lookup_fmap_Some in Hc as (l & -> & _).
    apply outcome_of_answer_boolean. }
  assert (Hsession : Forall (fun s => session_rowid s = id) rows).
  { eapply Forall_impl; [exact Hall|]. by intros s [? _]. }
  assert (Hk : 0 < Z.of_nat (length (attempts id db1)) < 2 ^ 53).
  { unfold db1. rewrite (attempts_with_scores _ _ _ Hsession), length_app, Hrows.
    pose proof (List.filter_length_le (in_session id) (scores db0)) as Hle.
    fold (attempts id db0) in Hle. rewrite Hscores0 in Hle. lia. }
  destruct (get_session_score_value id db1 Hbool1 Hk) as (q & Hscore & _).
  exists id, rows, questions, (SFmul float_prec float_emax q
                                 (S754_finite false 7036874417766400 (-46))),
    (map (fun row => Missed (fst row) (snd row)) (SQL_INCORRECT_WORDS id db1)).
  split; [by rewrite Hnew|].
  split; [|repeat split; try done;
           eapply Forall_impl; [exact Hall|]; intros s [? ?];
           split; [done|by rewrite <- Hwords0]].
  unfold test.
  rewrite (call_on_database _ _ _ _ Hdb). fold db0.
  replace (snd (new_session now db)) with (@Return (option Z) (Some id))
    by (by rewrite Hnew).
  cbv iota. fold w0. rewrite Hask.
  unfold call_for. cbn [files stdin stdout].
  rewrite (call_on_database _ _ _ db1) by apply lookup_insert_eq.
  rewrite Hscore. simpl fst. simpl snd. cbv iota.
  rewrite (call_on_database _ _ _ db1) by apply lookup_insert_eq.
  rewrite get_incorrect_words_rows. simpl fst. simpl snd. cbv iota.
  change (float_times_int q 100)
    with (@Return spec_float
            (SFmul float_prec float_emax q
               (S754_finite false 7036874417766400 (-46)))).
  cbv iota. rewrite !insert_insert_eq. unfold w0. cbn [files stdin stdout].
  rewrite !insert_insert_eq, <- !app_assoc. reflexivity.
Qed.
Lemma test_records_five_answers_witness :
  ∃ id rows,
    snd (new_session (Datetime 2024 1 1 12 0 0 0) two_words) = Return (Some id)
    ∧ fst (test (Datetime 2024 1 1 12 0 0 0) (fun a => a) five_answers)
      = {| files := {[ DB_FILE_NAME :=
                         with_scores
                           (fst (new_session (Datetime 2024 1 1 12 0 0 0) two_words))
                           rows ]};
           stdin := ["left over"];
           stdout := stdout (fst (test (Datetime 2024 1 1 12 0 0 0)
                                    (fun a => a) five_answers)) |}
    ∧ correct <$> rows = [1; 0; 1; 0; 1].
Proof.
  destruct (test_records_five_answers (Datetime 2024 1 1 12 0 0 0) (fun a => a)
              five_answers two_words)
    as (id & rows & questions & percent & missed & Hid & Htest & _ & _ & _ & Hc).
  - vm_compute. reflexivity.
  - by_decision.
  - vm_compute. reflexivity.
  - intros H. apply (f_equal (fun m => m !! 1)) in H. vm_compute in H. discriminate.
  - vm_compute. lia.
  - by_decision.
  - exists id, rows. split; [exact Hid|]. split; [|exact Hc].
    rewrite Htest. simpl. by rewrite insert_singleton_eq.
Defined.

(** X24. When the input ends before the fifth answer (fewer than five lines,
    none of them empty), the drill fails with [IndexError] after printing
    one more question than there were lines; the session it started and the
    answers given so far stay in the store, recorded under the identifier
    [new_session] returned. *)
Theorem test_on_end_of_input
    (now : datetime) (draws : nat -> nat) (w : console) (db : database) :
  files w !! DB_FILE_NAME = Some db →
  words db ≠ ∅ →
  (length (stdin w) < 5)%nat →
  Forall (fun line => line ≠ EmptyString) (stdin w) →
  ∃ id rows questions,
    snd (new_session now db) = Return (Some id)
    ∧ test now draws w
      = ({| files := <[DB_FILE_NAME := with_scores (fst (new_session now db)) rows]>
                       (files w);
            stdin := [];
            stdout := (stdout w ++ [SessionCreated (Some id)] ++ questions)%list |},
         Some IndexError)
    ∧ length rows = length (stdin w)
    ∧ length questions = S (length (stdin w))
    ∧ correct <$> rows = outcome_of_answer <$> stdin w
    ∧ Forall (fun s => session_rowid s = id) rows.
Proof.
  intros Hdb Hne Hlen Hlines.
  destruct (new_session_some now db) as [id Hnew].
  set (db0 := fst (new_session now db)).
  assert (Hwords0 : words db0 = words db) by (unfold db0; by rewrite Hnew).
  set (w0 := {| files := <[DB_FILE_NAME := db0]> (files w); stdin := stdin w;
                stdout := (stdout w ++ [SessionCreated (Some id)])%list |}).
  destruct (ask_words_end_of_input DB_FILE_NAME id draws 5 0%nat w0 db0)
    as (rows & questions & Hask & Hrows & Hquestions & Hcorrect & Hall).
  { apply lookup_insert_eq. }
  { by rewrite Hwords0. }
  { exact Hlen. }
  { exact Hlines. }
  exists id, rows, questions.
  split; [by rewrite Hnew|]. split; [|done].
  unfold test.
  rewrite (call_on_database _ _ _ _ Hdb). fold db0.
  replace (snd (new_session now db)) with (@Return (option Z) (Some id))
    by (by rewrite Hnew).
  cbv iota. fold w0. rewrite Hask. unfold w0. cbn [files stdin stdout].
  by rewrite insert_insert_eq, <- app_assoc.
Qed.

Lemma test_on_end_of_input_witness :
  ∃ id rows,
    snd (test (Datetime 2024 1 1 12 0 0 0) (fun a => a)
           (Console {[ DB_FILE_NAME := two_words ]} ["y"; "n"] []))
    = Some IndexError
    ∧ snd (new_session (Datetime 2024 1 1 12 0 0 0) two_words) = Return (Some id)
    ∧ correct <$> rows = [1; 0]
    ∧ Forall (fun s => session_rowid s = id) rows.
Proof.
  destruct (test_on_end_of_input (Datetime 2024 1 1 12 0 0 0) (fun a => a)
              (Console {[ DB_FILE_NAME := two_words ]} ["y"; "n"] []) two_words)
    as (id & rows & questions & Hid & Htest & _ & _ & Hc & Hall).
  - vm_compute. reflexivity.
  - intros H. apply (f_equal (fun m => m !! 1)) in H. vm_compute in H. discriminate.
  - vm_compute. lia.
  - by_decision.
  - exists id, rows. rewrite Htest. split; [done|]. split; [exact Hid|].
    split; [exact Hc|exact Hall].
Defined.

(** ** The clock and the order of the stamps *)

Lemma string_of_list_ascii_app (l1 l2 : list ascii) :
  string_of_list_ascii (l1 ++ l2)
  = (string_of_list_ascii l1 ++ string_of_list_ascii l2)%string.
Proof. induction l1 as [|c l1 IH]; simpl; [done|]. by rewrite IH. Qed.

Lemma zero_padded_S width n :
  zero_padded (S width) n
  = (zero_padded width (n / 10)
     ++ String (ascii_of_N (48 + n mod 10)) EmptyString)%string.
Proof.
  unfold zero_padded. simpl. by rewrite string_of_list_ascii_app.
Qed.

Lemma string_length_app (a b : string) :
  String.length (a ++ b) = (String.length a + String.length b)%nat.
Proof. induction a as [|c a IH]; simpl; [done|]. by rewrite IH. Qed.

Lemma zero_padded_length width n : String.length (zero_padded width n) = width.
Proof.
  revert n. induction width as [|w IH]; intros n; [done|].
  rewrite zero_padded_S, string_length_app, IH. simpl. lia.
Qed.

Lemma compare_app_same_length (a a' b b' : string) :
  String.length a = String.length a' →
  String.compare (a ++ b) (a' ++ b')
  = then_compare (String.compare a a') (String.compare b b').
Proof.
  revert a'. induction a as [|c a IH]; intros [|c' a']; simpl; try done.
  intros [= Hlen]. destruct (Ascii.compare c c'); [by apply IH|done|done].
Qed.

Lemma digit_compare (m1 m2 : N) :
  (m1 < 10)%N → (m2 < 10)%N →
  Ascii.compare (ascii_of_N (48 + m1)) (ascii_of_N (48 + m2)) = (m1 ?= m2)%N.
Proof.
  intros H1 H2. unfold Ascii.compare.
  rewrite !N_ascii_embedding by lia.
  destruct (N.compare_spec m1 m2) as [->|Hlt|Hgt].
  - apply N.compare_refl.
  - apply N.compare_lt_iff. lia.
  - apply N.compare_gt_iff. lia.
Qed.

Lemma compare_by_digits (n1 n2 : N) :
  (n1 ?= n2)%N
  = then_compare (n1 / 10 ?= n2 / 10)%N (n1 mod 10 ?= n2 mod 10)%N.
Proof.
  pose proof (N.div_mod n1 10 ltac:(done)) as E1.
  pose proof (N.div_mod n2 10 ltac:(done)) as E2.
  assert (H1 : (n1 mod 10 < 10)%N) by (apply N.mod_upper_bound; lia).
  assert (H2 : (n2 mod 10 < 10)%N) by (apply N.mod_upper_bound; lia).
  generalize dependent (n1 mod 10)%N. generalize dependent (n2 mod 10)%N.
  generalize dependent (n1 / 10)%N. generalize dependent (n2 / 10)%N.
  intros q2 q1 r2 E2 H2 r1 E1 H1. subst n1 n2.
  destruct (N.compare_spec q1 q2) as [->|Hlt|Hgt]; simpl.
  - destruct (N.compare_spec r1 r2) as [->|Hlt|Hgt].
    + apply N.compare_refl.
    + apply N.compare_lt_iff. lia.
    + apply N.compare_gt_iff. lia.
  - apply N.compare_lt_iff. lia.
  - apply N.compare_gt_iff. lia.
Qed.

(** Zero-padded numerals of one width compare as the numbers they print. *)
Lemma zero_padded_compare width (n1 n2 : N) :
  (n1 < 10 ^ N.of_nat width)%N → (n2 < 10 ^ N.of_nat width)%N →
  String.compare (zero_padded width n1) (zero_padded width n2) = (n1 ?= n2)%N.
Proof.
  revert n1 n2. induction width as [|w IH]; intros n1 n2 H1 H2.
  - simpl in H1, H2. assert (n1 = 0%N) as -> by lia.
    assert (n2 = 0%N) as -> by lia. done.
  - rewrite Nat2N.inj_succ, N.pow_succ_r' in H1, H2.
    rewrite !zero_padded_S, compare_app_same_length
      by (by rewrite !zero_padded_length).
    rewrite IH.
    + simpl String.compare.
      rewrite digit_compare by (apply N.mod_upper_bound; lia).
      rewrite (compare_by_digits n1 n2).
      by destruct (n1 mod 10 ?= n2 mod 10)%N.
    + apply N.Div0.div_lt_upper_bound. lia.
    + apply N.Div0.div_lt_upper_bound. lia.
Qed.

Lemma zero_padded_then width (n1 n2 : N) (r1 r2 : string) :
  (n1 < 10 ^ N.of_nat width)%N → (n2 < 10 ^ N.of_nat width)%N →
  String.compare (zero_padded width n1 ++ r1) (zero_padded width n2 ++ r2)
  = then_compare (n1 ?= n2)%N (String.compare r1 r2).
Proof.
  intros H1 H2.
  rewrite compare_app_same_length by (by rewrite !zero_padded_length).
  by rewrite zero_padded_compare.
Qed.

Lemma compare_same_prefix (p r1 r2 : string) :
  String.compare (p ++ r1) (p ++ r2) = String.compare r1 r2.
Proof.
  induction p as [|c p IH]; simpl; [done|].
  unfold Ascii.compare. by rewrite N.compare_refl.
Qed.

(** The stamps of two datetimes compare, as text, the way the datetimes
    compare in time. *)
Lemma isoformat_compare (d1 d2 : datetime) :
  valid_datetime d1 → valid_datetime d2 →
  String.compare (isoformat d1) (isoformat d2) = datetime_compare d1 d2.
Proof.
  intros (Hy1 & Hm1 & Hd1 & Hh1 & Hmi1 & Hs1 & Hu1)
         (Hy2 & Hm2 & Hd2 & Hh2 & Hmi2 & Hs2 & Hu2).
  unfold isoformat, datetime_compare.
  do 5 (rewrite zero_padded_then by done; f_equal;
        rewrite compare_same_prefix).
  rewrite zero_padded_then by done. f_equal.
  destruct (N.eqb_spec (microsecond d1) 0) as [E1|E1],
           (N.eqb_spec (microsecond d2) 0) as [E2|E2].
  - by rewrite E1, E2.
  - rewrite E1. simpl. by destruct (microsecond d2).
  - rewrite E2. simpl. by destruct (microsecond d1).
  - rewrite compare_same_prefix. by apply zero_padded_compare.
Qed.

(** X25. With a clock that has advanced: when every stored session carries
    the stamp of a valid clock reading earlier than the valid reading of
    this call, [new_session] returns the rowid of the row it inserts. *)
Theorem new_session_with_advancing_clock (now : datetime) (db : database) :
  valid_datetime now →
  (∀ s, s ∈ sessions db →
     ∃ d, valid_datetime d ∧ date s = isoformat d
          ∧ datetime_compare d now = Lt) →
  new_session now db
  = ({| words := words db;
        sessions := (sessions db
                     ++ [SessionRow (next_rowid (sessions db)) (isoformat now)])%list;
        scores := scores db |},
     Return (Some (next_rowid (sessions db)))).
Proof.
  intros Hnow Hearlier.
  pose proof (new_session_later_clock now db) as Hlater.
  destruct (new_session_some now db) as [id Hnew].
  rewrite Hnew in *. simpl in Hlater. rewrite Hlater; [done|].
  intros s Hs. destruct (Hearlier s Hs) as (d & Hd & -> & Hlt).
  unfold String.ltb. by rewrite (isoformat_compare _ _ Hd Hnow), Hlt.
Qed.

Lemma new_session_with_advancing_clock_witness :
  snd (new_session (Datetime 2024 1 1 12 0 0 1) one_session) = Return (Some 2).
Proof.
  rewrite (new_session_with_advancing_clock (Datetime 2024 1 1 12 0 0 1)
             one_session).
  - reflexivity.
  - vm_compute. repeat split; reflexivity.
  - intros s Hs. simpl in Hs. apply list_elem_of_singleton in Hs as ->.
    exists (Datetime 2024 1 1 12 0 0 0).
    split; [vm_compute; repeat split; reflexivity|].
    split; vm_compute; reflexivity.
Defined.
